(** * Long-Term Feature Bank (mmaction/models/common/lfb.py)

    A shallow embedding of class [LFB]: construction over the three storage
    choices ('gpu', 'cpu', 'lmdb'), the partition merge of [load_lfb] and
    [load_lfb_on_lmdb], the windowed sampler [sample_long_term_features] and
    the combined-key accessor [__getitem__].

    Python dicts are finite maps, tensors carry their dtype and device next
    to their entries, exceptions are values of [exn], and the global numpy
    generator is a state threaded through the sampler. *)

From Stdlib Require Import ZArith Ascii String.
From stdpp Require Import gmap strings list fin_maps pretty.

Local Open Scope Z_scope.
Local Open Scope nat_scope.

(* ===================================================================== *)
(** ** Exceptions and the sampler's monad *)
(* ===================================================================== *)

(** The Python exception classes the module can raise, by class name. *)
Inductive exn :=
  | ValueError        (* raise ValueError, tuple unpacking, int() *)
  | AssertionError    (* assert *)
  | KeyError          (* dict[key] on a missing key *)
  | IndexError        (* sequence index out of range *)
  | AttributeError    (* attribute never assigned by __init__ *)
  | EOFError          (* unpickling an empty buffer *)
  | RuntimeError      (* torch: shape mismatch in an assignment *)
  | FileNotFoundError (* torch.load of a missing file *)
  | LmdbError.        (* lmdb.open(readonly=True) of a missing store *)

#[global] Instance exn_eq_dec : EqDecision exn.
Proof. solve_decision. Defined.

(** Python's [LookupError] is the base class of [KeyError] and
    [IndexError] only. *)
Definition is_LookupError (e : exn) : bool :=
  match e with
  | KeyError | IndexError => true
  | _ => false
  end.

(** [np.random] is one global generator. Its state is the sequence of raw
    draws still to come. *)
Definition RandomState := nat → nat.

(** A computation that may raise and that advances the generator. The
    generator's state survives an exception, as in Python. *)
Definition M (A : Type) : Type := RandomState → (exn + A) * RandomState.

Definition ret {A} (a : A) : M A := λ st, (inr a, st).
Definition raise {A} (e : exn) : M A := λ st, (inl e, st).
Definition bind {A B} (m : M A) (k : A → M B) : M B :=
  λ st, match m st with
        | (inr a, st') => k a st'
        | (inl e, st') => (inl e, st')
        end.
Definition lift {A} (r : exn + A) : M A := λ st, (r, st).

Declare Scope py_scope.
Delimit Scope py_scope with py.
Notation "'let*' x ':=' m 'in' k" := (bind m (λ x, k))
  (at level 10, x pattern, m at level 100, k at level 200) : py_scope.
Local Open Scope py_scope.

(** [for x in xs: acc = body(acc, x)], stopping at the first exception. *)
Fixpoint for_each {A S} (body : S → A → M S) (xs : list A) (acc : S) : M S :=
  match xs with
  | [] => ret acc
  | x :: xs' => let* acc' := body acc x in for_each body xs' acc'
  end.

(** [enumerate(xs)]. *)
Definition enumerate {A} (xs : list A) : list (nat * A) :=
  imap (λ i x, (i, x)) xs.

(** [range(start, start + n)] for a count [n]. *)
Definition py_range (start : Z) (n : nat) : list Z :=
  (λ i : nat, (start + Z.of_nat i)%Z) <$> seq 0 n.

(* ===================================================================== *)
(** ** Python [str]: [split] and [int] *)
(* ===================================================================== *)

(** A [string] is a Python [str] whose characters are code points below
    256, one per [ascii]. *)

(** [s.split(sep)] for a one-character separator. *)
Fixpoint str_split (sep : ascii) (s : string) : list string :=
  match s with
  | EmptyString => [EmptyString]
  | String c s' =>
      if Ascii.eqb c sep then EmptyString :: str_split sep s'
      else match str_split sep s' with
           | p :: ps => String c p :: ps
           | [] => [String c EmptyString]
           end
  end.

(** White space as [int] skips it: tab to carriage return, space, and the
    two code points below 256 that are Unicode spaces (U+0085, U+00A0). *)
Definition is_space (c : ascii) : bool :=
  let n := nat_of_ascii c in
  ((9 <=? n) && (n <=? 13)) || (n =? 32) || (n =? 133) || (n =? 160).

Definition digit_of (c : ascii) : option Z :=
  let n := nat_of_ascii c in
  if (48 <=? n) && (n <=? 57) then Some (Z.of_nat (n - 48)) else None.

Fixpoint lstrip (s : string) : string :=
  match s with
  | String c s' => if is_space c then lstrip s' else s
  | EmptyString => s
  end.

Fixpoint all_space (s : string) : bool :=
  match s with
  | String c s' => is_space c && all_space s'
  | EmptyString => true
  end.

(** The digits after the first one: single underscores may separate
    digits, the run may not end in an underscore, and only white space may
    follow it. *)
Fixpoint int_digits (acc : Z) (prev_underscore : bool) (s : string)
  : option Z :=
  match s with
  | EmptyString => if prev_underscore then None else Some acc
  | String c s' =>
      match digit_of c with
      | Some d => int_digits (10 * acc + d)%Z false s'
      | None =>
          if Ascii.eqb c "_" then
            if prev_underscore then None else int_digits acc true s'
          else if prev_underscore then None
          else if all_space s then Some acc else None
      end
  end.

Definition int_unsigned (s : string) : option Z :=
  match s with
  | String c s' =>
      match digit_of c with
      | Some d => int_digits d false s'
      | None => None
      end
  | EmptyString => None
  end.

(** [int(s)] in base 10: optional white space, an optional sign, decimal
    digits (leading zeros allowed), optional white space. [None] stands for
    the ValueError. *)
Definition py_int (s : string) : option Z :=
  match lstrip s with
  | String c s' =>
      if Ascii.eqb c "+" then int_unsigned s'
      else if Ascii.eqb c "-" then Z.opp <$> int_unsigned s'
      else int_unsigned (String c s')
  | EmptyString => None
  end.

(** [str(z)] for an integer: decimal digits, no leading zero, ["-"] before
    a negative number. *)
Definition py_str (z : Z) : string := pretty z.

(** The number of occurrences of [c] in [s]. *)
Fixpoint count_char (c : ascii) (s : string) : nat :=
  match s with
  | EmptyString => 0
  | String a s' => (if Ascii.eqb a c then 1 else 0) + count_char c s'
  end.

(* ===================================================================== *)
(** ** numpy: [np.random.choice(range(n), size, replace=False)] *)
(* ===================================================================== *)

(** [random_interval(max)]: a draw in [0, max]. numpy consumes nothing for
    [max = 0]; otherwise it masks raw words and rejects those above [max].
    The stream lists the accepted words; [mod] keeps the function total on
    every stream. *)
Definition random_interval (max : nat) : M nat :=
  λ st, match max with
        | 0 => (inr 0, st)
        | S _ => (inr (st 0 mod S max), λ n, st (S n))
        end.

(** The stream that yields [j] first and continues as [st]. *)
Definition stream_cons (j : nat) (st : RandomState) : RandomState :=
  λ n, match n with 0 => j | S n' => st n' end.

(** [x[i], x[j] = x[j], x[i]] *)
Definition swap (i j : nat) (x : list nat) : list nat :=
  match x !! i, x !! j with
  | Some xi, Some xj => <[i := xj]> (<[j := xi]> x)
  | _, _ => x
  end.

(** numpy's shuffle of a 1-d array:
    [for i in reversed(range(1, n)): j = random_interval(i); swap x[i], x[j]].
    [shuffle_from i x] runs the iterations [i, i-1, ..., 1]. *)
Fixpoint shuffle_from (i : nat) (x : list nat) : M (list nat) :=
  match i with
  | 0 => ret x
  | S i' => let* j := random_interval i in shuffle_from i' (swap i j x)
  end.

Definition shuffle (x : list nat) : M (list nat) :=
  shuffle_from (length x - 1) x.

(** [permutation(n)] is [shuffle(arange(n))]. *)
Definition permutation (n : nat) : M (list nat) := shuffle (seq 0 n).

(** [choice(range(pop_size), size, replace=False)] with [p=None]:
    numpy rejects an empty population unless nothing is drawn, rejects
    [size > pop_size], and otherwise returns [permutation(pop_size)[:size]];
    the population is [arange], so the drawn indices are the result. *)
Definition choice (pop_size size : nat) : M (list nat) :=
  if (pop_size =? 0) && negb (size =? 0) then raise ValueError
  else if pop_size <? size then raise ValueError
  else let* idx := permutation pop_size in ret (take size idx).

(* ===================================================================== *)
(** ** torch: tensors with dtype and device *)
(* ===================================================================== *)

(** The floating dtypes a feature bank is saved in. *)
Inductive dtype := float16 | bfloat16 | float32 | float64.

Inductive Device := cpu | cuda (index : nat).

#[global] Instance dtype_eq_dec : EqDecision dtype.
Proof. solve_decision. Defined.
#[global] Instance Device_eq_dec : EqDecision Device.
Proof. solve_decision. Defined.

(** [torch.get_default_dtype()]; nothing in the repository calls
    [torch.set_default_dtype]. *)
Definition default_dtype : dtype := float32.

(** Every value of [src] is a value of [dst]. *)
Definition exact_in (src dst : dtype) : bool :=
  match src, dst with
  | float16, bfloat16 | bfloat16, float16 => false
  | float16, _ | bfloat16, _ => true
  | float32, float32 | float32, float64 => true
  | float32, _ => false
  | float64, float64 => true
  | float64, _ => false
  end.

(** The entries of a tensor: the number a float denotes, with its zero,
    and the rounding a narrowing copy performs. No arithmetic is done on
    entries by this module. *)
Class Scalar (V : Type) := {
  zero : V;
  round_to : dtype → V → V;
  #[global] scalar_eq_dec :: EqDecision V
}.

Section Model.
Context {V : Type} `{!Scalar V}.

(** What [dst.copy_(src)] stores for one entry. *)
Definition convert (src dst : dtype) (x : V) : V :=
  if exact_in src dst then x else round_to dst x.

(** A feature vector: a 1-d tensor. *)
Record Tensor1 := mkTensor1 {
  t_dtype : dtype;
  t_device : Device;
  t_data : list V
}.

(** A 2-d tensor of shape [b_shape], held by rows. *)
Record Tensor2 := mkTensor2 {
  b_dtype : dtype;
  b_device : Device;
  b_shape : nat * nat;
  b_rows : list (list V)
}.

(** [torch.zeros(n, c)]: default dtype, on the cpu. *)
Definition torch_zeros (n c : nat) : Tensor2 :=
  {| b_dtype := default_dtype; b_device := cpu; b_shape := (n, c);
     b_rows := replicate n (replicate c zero) |}.

Definition with_row (t : Tensor2) (r : nat) (row : list V) : Tensor2 :=
  {| b_dtype := b_dtype t; b_device := b_device t; b_shape := b_shape t;
     b_rows := <[r := row]> (b_rows t) |}.

(** [t[r] = v] for a 1-d [v]: the row keeps the dtype and device of [t] and
    receives the converted entries of [v]; a one-entry [v] is broadcast;
    any other length is torch's shape-mismatch error; [r] past the last row
    is an IndexError. *)
Definition setitem (t : Tensor2) (r : nat) (v : Tensor1) : exn + Tensor2 :=
  if decide (r < length (b_rows t)) then
    let c := (b_shape t).2 in
    let cv := convert (t_dtype v) (b_dtype t) in
    if decide (length (t_data v) = c) then inr (with_row t r (cv <$> t_data v))
    else match t_data v with
         | [x] => inr (with_row t r (replicate c (cv x)))
         | _ => inl RuntimeError
         end
  else inl IndexError.

(** [tensor.to(device)], as [map_location] applies it on load. *)
Definition to_device (d : Device) (v : Tensor1) : Tensor1 :=
  {| t_dtype := t_dtype v; t_device := d; t_data := t_data v |}.

(* ===================================================================== *)
(** ** The feature bank *)
(* ===================================================================== *)

(** The value of one video id: timestamp (seconds) to the roi features of
    that second, a sequence of feature vectors (a list of 1-d tensors, or
    the rows of one 2-d tensor). *)
Abbreviation FeatureRecord := (gmap Z (list Tensor1)).

(** The whole bank: video id to record. *)
Abbreviation FeatureBank := (gmap string FeatureRecord).

Definition relocate_rec (d : Device) (rec : FeatureRecord) : FeatureRecord :=
  (λ feats : list Tensor1, to_device d <$> feats) <$> rec.

Definition relocate (d : Device) (bank : FeatureBank) : FeatureBank :=
  relocate_rec d <$> bank.

(** [d.update(other)]: the keys of [other] overwrite. *)
Definition dict_update {A} (d other : gmap string A) : gmap string A :=
  other ∪ d.

(** The bytes [torch.save(value, buff)] writes for a record. Only the round
    trip through [torch.load] is used, never the byte format. *)
Inductive pickled := Pickle (value : FeatureRecord).

Definition torch_save (value : FeatureRecord) : pickled := Pickle value.

(** [torch.load(io.BytesIO(buf))]. [txn.get] returns [None] for a missing
    key; [io.BytesIO(None)] is the empty buffer, and unpickling it raises
    [EOFError]. *)
Definition torch_load_buffer (buf : option pickled) : exn + FeatureRecord :=
  match buf with
  | Some (Pickle value) => inr value
  | None => inl EOFError
  end.

(** What the process sees outside itself: the paths that exist, the
    partition files [torch.load] can read, the lmdb stores by directory,
    whether [import lmdb] succeeded, and [get_dist_info()]. *)
Record Env := mkEnv {
  fs_paths : gset string;
  fs_pkl : gmap string FeatureBank;
  fs_lmdb : gmap string (gmap string pickled);
  lmdb_imported : bool;
  dist_rank : nat;
  dist_world_size : nat
}.

(** [torch.load(path, map_location=d)] of a partition file. The
    environment does not record which cuda devices the machine has: a load
    onto a device that is missing, which torch refuses, is outside the
    model, and what is proved of 'gpu' instances is proved of constructions
    that return one. *)
Definition torch_load (env : Env) (path : string) (d : Device)
  : exn + FeatureBank :=
  match fs_pkl env !! path with
  | Some bank => inr (relocate d bank)
  | None => inl FileNotFoundError
  end.

(** [osp.normpath(osp.join(prefix, name))]; the environment is keyed by the
    joined name. *)
Definition path_join (prefix name : string) : string :=
  prefix +:+ "/" +:+ name.

Definition lfb_path (prefix dataset_mode : string) : string :=
  path_join prefix ("lfb_" +:+ dataset_mode +:+ ".pkl").

(** The instance. [lfb] is assigned by [load_lfb] only, [lmdb_env] on the
    lmdb branch only; the other lmdb attributes ([lmdb_map_size],
    [construct_lmdb], [lfb_lmdb_path]) are not read after construction.
    The three sizes are counts: a negative one makes [torch.zeros] or
    [choice] raise on first use. *)
Record LFB := mkLFB {
  lfb_prefix_path : string;
  max_num_sampled_feat : nat;
  window_size : nat;
  lfb_channels : nat;
  dataset_modes : list string;
  device : string;
  lfb : option FeatureBank;
  lmdb_env : option (gmap string pickled)
}.

(** The loop shared by [load_lfb] and [load_lfb_on_lmdb]:
    [for dataset_mode in self.dataset_modes: lfb.update(torch.load(...))]. *)
Fixpoint load_partitions (env : Env) (prefix : string) (d : Device)
    (modes : list string) (acc : FeatureBank) : exn + FeatureBank :=
  match modes with
  | [] => inr acc
  | dataset_mode :: rest =>
      match torch_load env (lfb_path prefix dataset_mode) d with
      | inl e => inl e
      | inr part => load_partitions env prefix d rest (dict_update acc part)
      end
  end.

Definition load_lfb (env : Env) (prefix : string) (modes : list string)
    (map_location : Device) : exn + FeatureBank :=
  load_partitions env prefix map_location modes ∅.

(** [key.encode()]: UTF-8. A character of the string is a code point below
    256; those from 128 on take two bytes. *)
Fixpoint encode (s : string) : string :=
  match s with
  | EmptyString => EmptyString
  | String c s' =>
      match c with
      | Ascii b0 b1 b2 b3 b4 b5 b6 false => String c (encode s')
      | Ascii b0 b1 b2 b3 b4 b5 b6 true =>
          String (Ascii b6 true false false false false true true)
            (String (Ascii b0 b1 b2 b3 b4 b5 false true) (encode s'))
      end
  end.

(** [Environment.max_key_size()]: the longest key, in bytes, that lmdb
    takes; it refuses the empty key too. *)
Definition max_key_size : nat := 511.

(** [load_lfb_on_lmdb]: merge the partitions on the cpu, open (or create)
    the store at [path], and put every item under its encoded key, one
    transaction each. Returns the environment with the store written. The
    order in which the items are visited does not show in the result
    ([encode] is injective). What lmdb itself can refuse (a map size it
    does not take or that the data outgrows, a store already open in the
    process, a key that is empty or longer than [max_key_size]) is outside
    the model: what is proved of 'lmdb' construction is proved of
    constructions that return an instance, or of failures that come before
    the store is opened. *)
Definition load_lfb_on_lmdb (env : Env) (prefix : string)
    (modes : list string) (path : string) : exn + Env :=
  match load_partitions env prefix cpu modes ∅ with
  | inl e => inl e
  | inr bank =>
      let lmdb_env := default ∅ (fs_lmdb env !! path) in
      let written :=
        map_fold (λ key value store, <[encode key := torch_save value]> store)
                 lmdb_env bank in
      inr {| fs_paths := {[path]} ∪ fs_paths env;
             fs_pkl := fs_pkl env;
             fs_lmdb := <[path := written]> (fs_lmdb env);
             lmdb_imported := lmdb_imported env;
             dist_rank := dist_rank env;
             dist_world_size := dist_world_size env |}
  end.

(** The [dataset_modes] argument: a tuple of names or one name. *)
Inductive modes_arg := ModesTuple (names : list string) | ModesStr (name : string).

(** Lines 87-89: a lone name becomes a one-element tuple. *)
Definition as_tuple (dataset_modes : modes_arg) : list string :=
  match dataset_modes with
  | ModesTuple names => names
  | ModesStr name => [name]
  end.

(** [LFB.__init__]. [print], the multi-process warning and [dist.barrier()]
    leave no trace in the instance and are omitted; [lmdb_map_size] is only
    handed to lmdb; [assert] is executed (no [-O]). The result is the
    exception raised or the instance, with the environment after the
    call. *)
Definition init (env : Env) (lfb_prefix_path : string)
    (max_num_sampled_feat window_size lfb_channels : nat)
    (dataset_modes : modes_arg) (device : string)
    (construct_lmdb : bool) : (exn + LFB) * Env :=
  if negb (bool_decide (lfb_prefix_path ∈ fs_paths env)) then (inl ValueError, env)
  else
    let modes := as_tuple dataset_modes in
    let self lfb lmdb_env :=
      {| lfb_prefix_path := lfb_prefix_path;
         max_num_sampled_feat := max_num_sampled_feat;
         window_size := window_size;
         lfb_channels := lfb_channels;
         dataset_modes := modes;
         device := device;
         lfb := lfb;
         lmdb_env := lmdb_env |} in
    if bool_decide (device = "gpu") then
      match load_lfb env lfb_prefix_path modes (cuda (dist_rank env)) with
      | inl e => (inl e, env)
      | inr bank => (inr (self (Some bank) None), env)
      end
    else if bool_decide (device = "cpu") then
      match load_lfb env lfb_prefix_path modes cpu with
      | inl e => (inl e, env)
      | inr bank => (inr (self (Some bank) None), env)
      end
    else if bool_decide (device = "lmdb") then
      if negb (lmdb_imported env) then (inl AssertionError, env)
      else
        let lfb_lmdb_path := path_join lfb_prefix_path "lmdb" in
        let constructed :=
          if (dist_rank env =? 0) && construct_lmdb
          then load_lfb_on_lmdb env lfb_prefix_path modes lfb_lmdb_path
          else inr env in
        match constructed with
        | inl e => (inl e, env)
        | inr env' =>
            match fs_lmdb env' !! lfb_lmdb_path with
            | Some store => (inr (self None (Some store)), env')
            | None => (inl LmdbError, env')
            end
        end
    else (inl ValueError, env).

(* ===================================================================== *)
(** ** The windowed sampler *)
(* ===================================================================== *)

(** Lines 154-159: the record of [video_id], from the lmdb store or from
    the in-memory bank. The lmdb lookup is that of a key lmdb accepts
    (not empty, at most [max_key_size] bytes); [txn.get] refuses any other
    key with an error of its own. *)
Definition video_features_of (self : LFB) (video_id : string)
  : exn + FeatureRecord :=
  if bool_decide (device self = "lmdb") then
    match lmdb_env self with
    | Some txn => torch_load_buffer (txn !! encode video_id)
    | None => inl AttributeError
    end
  else
    match lfb self with
    | Some bank =>
        match bank !! video_id with
        | Some video_features => inr video_features
        | None => inl KeyError
        end
    | None => inl AttributeError
    end.

(** Lines 168-176, the body of [if sec in video_features]. *)
Definition sample_second (K idx : nat) (feats : list Tensor1)
    (lt_feats : Tensor2) : M Tensor2 :=
  let num_feat := length feats in
  let num_feat_sampled := min num_feat K in
  let* random_lfb_indices := choice num_feat num_feat_sampled in
  for_each
    (λ lt_feats '(k, rand_idx),
       match feats !! rand_idx with
       | Some v => lift (setitem lt_feats (idx * K + k) v)
       | None => raise IndexError
       end)
    (enumerate random_lfb_indices) lt_feats.

(** Lines 161-179. *)
Definition sample_window (video_features : FeatureRecord)
    (window_size K lfb_channels : nat) (timestamp : Z) : M Tensor2 :=
  let start := (timestamp - Z.of_nat (window_size / 2))%Z in
  let lt_feats := torch_zeros (window_size * K) lfb_channels in
  for_each
    (λ lt_feats '(idx, sec),
       match video_features !! sec with
       | Some feats => sample_second K idx feats lt_feats
       | None => ret lt_feats
       end)
    (enumerate (py_range start window_size)) lt_feats.

Definition sample_long_term_features (self : LFB) (video_id : string)
    (timestamp : Z) : M Tensor2 :=
  let* video_features := lift (video_features_of self video_id) in
  sample_window video_features (window_size self) (max_num_sampled_feat self)
                (lfb_channels self) timestamp.

(** [__len__]. *)
Definition len (self : LFB) : exn + nat :=
  match lfb self with
  | Some bank => inr (size bank)
  | None => inl AttributeError
  end.

(** [__getitem__]: [video_id, timestamp = img_key.split(',')] raises
    ValueError unless the split has exactly two parts, and so does [int] on
    a part that is no integer literal. *)
Definition getitem (self : LFB) (img_key : string) : M Tensor2 :=
  match str_split "," img_key with
  | [video_id; timestamp] =>
      match py_int timestamp with
      | Some t => sample_long_term_features self video_id t
      | None => raise ValueError
      end
  | _ => raise ValueError
  end.

End Model.

(* ===================================================================== *)
(** ** The sampler on tensor objects *)
(* ===================================================================== *)

(** Lines 161-179 once more, with the block as the object it is in Python:
    [torch.zeros] allocates a tensor, [lt_feats[r] = v] assigns into that
    tensor in place, and the method returns a reference to it. The heap maps
    the address of every 2-d tensor alive to its value; the stored feature
    vectors are only read. *)
Module InPlace.
Section InPlace.
Context {V : Type} `{!Scalar V}.

Abbreviation Heap := (gmap nat (@Tensor2 V)).

(** A computation that may raise, allocates or assigns in the heap, and
    advances the generator. *)
Definition MH (A : Type) : Type :=
  Heap → RandomState → (exn + A) * Heap * RandomState.

Definition hret {A} (a : A) : MH A := λ h st, (inr a, h, st).
Definition hraise {A} (e : exn) : MH A := λ h st, (inl e, h, st).
Definition hbind {A B} (m : MH A) (k : A → MH B) : MH B :=
  λ h st, match m h st with
          | (inr a, h', st') => k a h' st'
          | (inl e, h', st') => (inl e, h', st')
          end.

(** A computation on the generator alone. *)
Definition hdraw {A} (m : M A) : MH A :=
  λ h st, let '(r, st') := m st in (r, h, st').

(** [for x in xs: body(x)], stopping at the first exception. *)
Fixpoint hfor_each {A} (body : A → MH unit) (xs : list A) : MH unit :=
  match xs with
  | [] => hret tt
  | x :: xs' => hbind (body x) (λ _, hfor_each body xs')
  end.

(** [torch.zeros(n, c)]: a new tensor, at an address no tensor alive has. *)
Definition torch_zeros (n c : nat) : MH nat :=
  λ h st, let a := fresh (dom h) in (inr a, <[a := torch_zeros n c]> h, st).

(** [t[r] = v] on the tensor at address [a]: the tensor is replaced by its
    assigned value, at the same address. A name always refers to a tensor
    alive, so the last case is never reached. *)
Definition setitem (a r : nat) (v : Tensor1) : MH unit :=
  λ h st, match h !! a with
          | Some t =>
              match setitem t r v with
              | inr t' => (inr tt, <[a := t']> h, st)
              | inl e => (inl e, h, st)
              end
          | None => (inl AttributeError, h, st)
          end.

(** Lines 168-176. *)
Definition sample_second (K idx : nat) (feats : list Tensor1)
    (lt_feats : nat) : MH unit :=
  let num_feat := length feats in
  let num_feat_sampled := min num_feat K in
  hbind (hdraw (choice num_feat num_feat_sampled)) (λ random_lfb_indices,
    hfor_each
      (λ '(k, rand_idx),
         match feats !! rand_idx with
         | Some v => setitem lt_feats (idx * K + k) v
         | None => hraise IndexError
         end)
      (enumerate random_lfb_indices)).

(** Lines 161-179; the result is the address of the block. *)
Definition sample_window (video_features : gmap Z (list Tensor1))
    (window_size K lfb_channels : nat) (timestamp : Z) : MH nat :=
  let start := (timestamp - Z.of_nat (window_size / 2))%Z in
  hbind (torch_zeros (window_size * K) lfb_channels) (λ lt_feats,
    hbind
      (hfor_each
         (λ '(idx, sec),
            match video_features !! sec with
            | Some feats => sample_second K idx feats lt_feats
            | None => hret tt
            end)
         (enumerate (py_range start window_size)))
      (λ _, hret lt_feats)).

Definition sample_long_term_features (self : LFB) (video_id : string)
    (timestamp : Z) : MH nat :=
  match video_features_of self video_id with
  | inl e => hraise e
  | inr video_features =>
      sample_window video_features (window_size self)
                    (max_num_sampled_feat self) (lfb_channels self) timestamp
  end.

End InPlace.
End InPlace.

(* ===================================================================== *)
(** ** Vocabulary of the statements *)
(* ===================================================================== *)

Section Vocabulary.
Context {V : Type} `{!Scalar V}.

(** A row of [torch.zeros]. *)
Definition zero_row (c : nat) : list V := replicate c zero.

(** The row a block of the default dtype holds after [lt_feats[r] = v]. *)
Definition row_of (v : Tensor1) : list V :=
  convert (t_dtype v) default_dtype <$> t_data v.

(** Rows [i*K .. i*K + K - 1]: the slots of window offset [i]. *)
Definition segment (K i : nat) (blk : @Tensor2 V) : list (list V) :=
  take K (drop (i * K) (b_rows blk)).

Definition is_zero_row (row : list V) : bool :=
  bool_decide (Forall (λ x, x = zero) row).

Definition nonzero_rows (rows : list (list V)) : nat :=
  length (filter (λ row, is_zero_row row = false) rows).

(** The tensor has [n] rows of [c] entries each. *)
Definition has_shape (n c : nat) (blk : @Tensor2 V) : Prop :=
  b_shape blk = (n, c) ∧ length (b_rows blk) = n ∧
  Forall (λ row, length row = c) (b_rows blk).

(** Every feature vector of the record has [c] entries: the producer's
    duty, which the class does not check. *)
Definition record_channels (c : nat) (rec : gmap Z (list (@Tensor1 V)))
  : Prop :=
  map_Forall (λ _ feats, Forall (λ v, length (t_data v) = c) feats) rec.

#[global] Instance record_channels_dec c rec : Decision (record_channels c rec).
Proof. unfold record_channels. apply _. Defined.

(** What the block holds for window offset [i], whose second is
    [start + i]: zero rows when the record has no such key; otherwise the
    features at distinct drawn indices [idxs], in the order drawn, one per
    row from row [i*K] on, and zero rows in the slots left over. *)
Definition second_sampled (rec : gmap Z (list (@Tensor1 V))) (start : Z)
    (K c : nat) (rows : list (list V)) (i : nat) : Prop :=
  match rec !! (start + Z.of_nat i)%Z with
  | None => ∀ k, k < K → rows !! (i * K + k) = Some (zero_row c)
  | Some feats =>
      ∃ idxs : list nat,
        (∃ st : RandomState,
           (choice (length feats) (min (length feats) K) st).1 = inr idxs) ∧
        length idxs = min (length feats) K ∧ NoDup idxs ∧
        (∀ k j, idxs !! k = Some j →
           ∃ v, feats !! j = Some v ∧ rows !! (i * K + k) = Some (row_of v)) ∧
        (∀ k, length idxs ≤ k < K → rows !! (i * K + k) = Some (zero_row c))
  end.

(** The state of the block when the outer loop reaches window offset [m]:
    float32 on the cpu, of the final shape, offsets below [m] sampled, all
    later rows still zero. *)
Definition window_inv (rec : gmap Z (list (@Tensor1 V))) (start : Z)
    (W K c m : nat) (lt : @Tensor2 V) : Prop :=
  b_dtype lt = default_dtype ∧ b_device lt = cpu ∧
  has_shape (W * K) c lt ∧
  (∀ p, m * K ≤ p < W * K → b_rows lt !! p = Some (zero_row c)) ∧
  (∀ i, i < m → second_sampled rec start K c (b_rows lt) i).

(** The generator's state when the outer loop of a query started at [st]
    reaches window offset [i]: one draw for every earlier second that is a
    key of the record, none for the others. *)
Fixpoint state_at (rec : gmap Z (list (@Tensor1 V))) (start : Z) (K : nat)
    (st : RandomState) (i : nat) : RandomState :=
  match i with
  | 0 => st
  | S i' =>
      let st_i := state_at rec start K st i' in
      match rec !! (start + Z.of_nat i')%Z with
      | Some feats => (choice (length feats) (min (length feats) K) st_i).2
      | None => st_i
      end
  end.

(** [second_sampled] with the draw pinned down: at offset [i] the generator
    goes from [st_i] to [st_next], and the indices are the ones [choice]
    returns at [st_i]. *)
Definition second_drawn (rec : gmap Z (list (@Tensor1 V))) (start : Z)
    (K c : nat) (rows : list (list V)) (st_i st_next : RandomState) (i : nat)
  : Prop :=
  match rec !! (start + Z.of_nat i)%Z with
  | None =>
      st_next = st_i ∧ ∀ k, k < K → rows !! (i * K + k) = Some (zero_row c)
  | Some feats =>
      ∃ idxs : list nat,
        choice (length feats) (min (length feats) K) st_i = (inr idxs, st_next) ∧
        length idxs = min (length feats) K ∧ NoDup idxs ∧
        (∀ k j, idxs !! k = Some j →
           ∃ v, feats !! j = Some v ∧ rows !! (i * K + k) = Some (row_of v)) ∧
        (∀ k, length idxs ≤ k < K → rows !! (i * K + k) = Some (zero_row c))
  end.

(** [window_inv] for a query started at generator state [st]. *)
Definition window_draws_inv (rec : gmap Z (list (@Tensor1 V))) (start : Z)
    (W K c : nat) (st : RandomState) (m : nat) (lt : @Tensor2 V) : Prop :=
  b_dtype lt = default_dtype ∧ b_device lt = cpu ∧
  has_shape (W * K) c lt ∧
  (∀ p, m * K ≤ p < W * K → b_rows lt !! p = Some (zero_row c)) ∧
  (∀ i, i < m →
     second_drawn rec start K c (b_rows lt)
                  (state_at rec start K st i) (state_at rec start K st (S i)) i).

(** How a run on the heap ends, given how the run on values ends. *)
Definition outcome {A} (r : exn + A) : exn + unit :=
  match r with
  | inr _ => inr tt
  | inl e => inl e
  end.

End Vocabulary.

Section BankVocabulary.
Context {V : Type}.

(** Every tensor of the bank is placed on device [d]. *)
Definition bank_on (d : Device) (bank : gmap string (gmap Z (list (@Tensor1 V))))
  : Prop :=
  ∀ video_id rec sec feats v,
    bank !! video_id = Some rec → rec !! sec = Some feats → v ∈ feats →
    t_device v = d.

(** Partition [m] of [modes] has a file under [prefix]. *)
Definition partitions_present (env : @Env V) (prefix : string)
    (modes : list string) : Prop :=
  Forall (λ m, is_Some (fs_pkl env !! lfb_path prefix m)) modes.

#[global] Instance partitions_present_dec env prefix modes :
  Decision (partitions_present env prefix modes).
Proof. unfold partitions_present. apply _. Defined.

End BankVocabulary.

Section ShapeVocabulary.
Context {V : Type}.

(** The lengths torch accepts when a vector is assigned to a row of [c]
    entries: [c] itself, or 1 (broadcast). *)
Definition fits (c : nat) (v : @Tensor1 V) : Prop :=
  length (t_data v) = c ∨ length (t_data v) = 1.

(** At window offset [i] the features drawn all fit a row of [c] entries. *)
Definition second_fits (rec : gmap Z (list (@Tensor1 V))) (start : Z)
    (K c i : nat) : Prop :=
  match rec !! (start + Z.of_nat i)%Z with
  | Some feats =>
      ∃ idxs : list nat,
        NoDup idxs ∧ length idxs = min (length feats) K ∧
        Forall (λ j, ∃ v, feats !! j = Some v ∧ fits c v) idxs
  | None => True
  end.

End ShapeVocabulary.

(* ===================================================================== *)
(** ** A concrete bank *)
(* ===================================================================== *)

(** The significand of each dtype, in bits, the hidden one included. *)
Definition precision (d : dtype) : Z :=
  match d with
  | float16 => 11 | bfloat16 => 8 | float32 => 24 | float64 => 53
  end%Z.

(** An integer rounded to [p] significant bits, to nearest and ties to even:
    what a narrowing copy stores for a value of normal magnitude (one that
    overflows to infinity has no integer to stand for it). *)
Definition round_sig (p x : Z) : Z :=
  let bits := (Z.log2 (Z.abs x) + 1)%Z in
  if (bits <=? p)%Z then x
  else
    let s := (bits - p)%Z in
    let q := Z.shiftr (Z.abs x) s in
    let rest := Z.land (Z.abs x) (Z.ones s) in
    let half := Z.shiftl 1 (s - 1) in
    let up := (half <? rest)%Z || ((rest =? half)%Z && Z.odd q) in
    (Z.sgn x * Z.shiftl (if up then q + 1 else q) s)%Z.

(** Entries written as integers. *)
#[global] Instance Z_scalar : Scalar Z :=
  {| zero := 0%Z; round_to := λ d x, round_sig (precision d) x |}.

Module Scenario.

Definition vec (entries : list Z) : Tensor1 := mkTensor1 float16 cpu entries.

(** Second 10 holds two features, second 11 one. *)
Definition rec_vid42 : gmap Z (list Tensor1) :=
  {[ 10%Z := [vec [1; 1; 1]; vec [2; 2; 2]];
     11%Z := [vec [9; 9; 9]] ]}%Z.

Definition rec_train_x : gmap Z (list Tensor1) := {[ 3%Z := [vec [4; 4; 4]%Z] ]}.
Definition rec_val_x : gmap Z (list Tensor1) := {[ 3%Z := [vec [5; 5; 5]%Z] ]}.

Definition bank_train : gmap string (gmap Z (list Tensor1)) :=
  {[ "vid42" := rec_vid42; "x" := rec_train_x ]}.
Definition bank_val : gmap string (gmap Z (list Tensor1)) :=
  {[ "x" := rec_val_x ]}.

(** A machine with both partition files under [/data], lmdb installed,
    one process. *)
Definition env0 : Env :=
  {| fs_paths := {[ "/data" ]};
     fs_pkl := {[ "/data/lfb_train.pkl" := bank_train;
                  "/data/lfb_val.pkl" := bank_val ]};
     fs_lmdb := ∅;
     lmdb_imported := true;
     dist_rank := 0;
     dist_world_size := 1 |}.

(** A machine with [/data] but without the lmdb package. *)
Definition env_no_lmdb : Env :=
  {| fs_paths := {[ "/data" ]};
     fs_pkl := {[ "/data/lfb_train.pkl" := bank_train;
                  "/data/lfb_val.pkl" := bank_val ]};
     fs_lmdb := ∅;
     lmdb_imported := false;
     dist_rank := 0;
     dist_world_size := 1 |}.

(** A machine without the lmdb package and without [/data]. *)
Definition env_bare : Env :=
  {| fs_paths := ∅; fs_pkl := ∅; fs_lmdb := (∅ : gmap string (gmap string (@pickled Z)));
     lmdb_imported := false; dist_rank := 0; dist_world_size := 1 |}.

(** [LFB('/data', max_num_sampled_feat=2, window_size=4, lfb_channels=3,
         device=device)] *)
Definition construct (device : string) : (exn + LFB) * Env :=
  init env0 "/data" 2 4 3 (ModesTuple ["train"; "val"]) device true.

Definition built (device : string) : LFB :=
  match (construct device).1 with
  | inr self => self
  | inl _ => mkLFB "" 0 0 0 [] "" None None
  end.

(** The bank of an in-memory instance. *)
Definition lfb_bank (self : @LFB Z) : gmap string (gmap Z (list Tensor1)) :=
  default ∅ (lfb self).

Definition rng0 : RandomState := λ n, n.

(** A bank whose only feature is the zero vector, with a window of one
    second and one slot. *)
Definition rec_zero : gmap Z (list Tensor1) := {[ 10%Z := [vec [0; 0; 0]%Z] ]}.

Definition store_zero : LFB :=
  mkLFB "/data" 1 1 3 ["train"] "cpu" (Some {[ "z" := rec_zero ]}) None.

End Scenario.

(** More concrete data: a third partition, a store left by an earlier run,
    a feature of the wrong length, a record with a far second, a shifted
    record. *)
Module Scenario2.
Import Scenario.

Definition bank_test : gmap string (gmap Z (list Tensor1)) :=
  {[ "t" := rec_val_x ]}.

(** [env0] with a third partition file. *)
Definition env_three : Env :=
  {| fs_paths := {[ "/data" ]};
     fs_pkl := {[ "/data/lfb_train.pkl" := bank_train;
                  "/data/lfb_val.pkl" := bank_val;
                  "/data/lfb_test.pkl" := bank_test ]};
     fs_lmdb := ∅;
     lmdb_imported := true;
     dist_rank := 0;
     dist_world_size := 1 |}.

(** [env0] with a store that already holds a record for the id "gone". *)
Definition env_stale : Env :=
  {| fs_paths := {[ "/data" ]};
     fs_pkl := {[ "/data/lfb_train.pkl" := bank_train;
                  "/data/lfb_val.pkl" := bank_val ]};
     fs_lmdb := {[ "/data/lmdb" := {[ "gone" := Pickle rec_train_x ]} ]};
     lmdb_imported := true;
     dist_rank := 0;
     dist_world_size := 1 |}.

Definition built_stale : LFB :=
  match (init env_stale "/data" 2 4 3 (ModesTuple ["train"; "val"])
              "lmdb" true).1 with
  | inr self => self
  | inl _ => mkLFB "" 0 0 0 [] "" None None
  end.

(** A bank whose only feature has two entries, for three channels. *)
Definition rec_misfit : gmap Z (list Tensor1) := {[ 10%Z := [vec [1; 2]%Z] ]}.

Definition store_misfit : LFB :=
  mkLFB "/data" 1 1 3 ["train"] "cpu" (Some {[ "m" := rec_misfit ]}) None.

(** [rec_vid42] with one more second, far from 11. *)
Definition rec_vid42_far : gmap Z (list Tensor1) :=
  <[500%Z := [vec [7; 7; 7]%Z]]> rec_vid42.

Definition store_far : LFB :=
  mkLFB "/data" 2 4 3 ["train"] "cpu" (Some {[ "far" := rec_vid42_far ]}) None.

(** [rec_vid42] five seconds later. *)
Definition store_shifted : LFB :=
  mkLFB "/data" 2 4 3 ["train"] "cpu"
        (Some {[ "late" := kmap (λ sec : Z, (sec + 5)%Z) rec_vid42 ]}) None.

(** A bank saved in double precision, with an entry that float32 cannot
    hold: 2^24 + 1. *)
Definition rec_double : gmap Z (list Tensor1) :=
  {[ 10%Z := [mkTensor1 float64 cpu [16777217; 3; -16777219]%Z] ]}.

Definition store_double : LFB :=
  mkLFB "/data" 1 1 3 ["train"] "cpu" (Some {[ "d" := rec_double ]}) None.

(** A heap with two tensors alive. *)
Definition heap0 : gmap nat Tensor2 :=
  {[ 0 := mkTensor2 float32 cpu (1, 1) [[7%Z]];
     1 := mkTensor2 float16 cpu (1, 2) [[8%Z; 9%Z]] ]}.

End Scenario2.

(* ===================================================================== *)
(** ** Properties of the generator model *)
(* ===================================================================== *)

Lemma swap_Permutation i j x : swap i j x ≡ₚ x.
Proof.
  unfold swap.
  destruct (x !! i) as [xi|] eqn:Hi; [|done].
  destruct (x !! j) as [xj|] eqn:Hj; [|done].
  pose proof (lookup_lt_Some _ _ _ Hi) as Hli.
  pose proof (lookup_lt_Some _ _ _ Hj) as Hlj.
  apply Permutation_inj. split; [by rewrite !length_insert|].
  exists (λ k, if decide (k = i) then j else if decide (k = j) then i else k).
  split.
  - intros a b. repeat case_decide; intros; subst; congruence.
  - intros k. rewrite !list_lookup_insert, !length_insert.
    repeat case_decide; subst; try done; try lia; naive_solver.
Qed.

Lemma random_interval_total max st :
  ∃ j st', random_interval max st = (inr j, st') ∧ j ≤ max.
Proof.
  destruct max as [|m]; simpl; [by eauto|].
  eexists _, _. split; [done|].
  pose proof (Nat.mod_upper_bound (st 0) (S m)). lia.
Qed.

Lemma shuffle_from_Permutation i x st :
  ∃ y st', shuffle_from i x st = (inr y, st') ∧ y ≡ₚ x.
Proof.
  revert x st. induction i as [|i IH]; intros x st; [by exists x, st|].
  cbn [shuffle_from]. unfold bind.
  destruct (random_interval_total (S i) st) as (j & st1 & -> & _).
  destruct (IH (swap (S i) j x) st1) as (y & st2 & -> & Hy).
  exists y, st2. split; [done|]. by rewrite Hy, swap_Permutation.
Qed.

Lemma permutation_Permutation n st :
  ∃ y st', permutation n st = (inr y, st') ∧ y ≡ₚ seq 0 n.
Proof. apply shuffle_from_Permutation. Qed.

(** What the sampler relies on: a draw of [size ≤ pop_size] indices never
    raises and yields [size] distinct indices below [pop_size]. *)
Lemma choice_spec pop_size size st :
  size ≤ pop_size →
  ∃ idx st', choice pop_size size st = (inr idx, st') ∧
    length idx = size ∧ NoDup idx ∧ Forall (λ j, j < pop_size) idx.
Proof.
  intros Hle. unfold choice.
  assert ((pop_size =? 0) && negb (size =? 0) = false) as ->.
  { destruct (Nat.eqb_spec pop_size 0) as [->|]; [|done].
    assert (size = 0) as -> by lia. done. }
  assert ((pop_size <? size) = false) as -> by (apply Nat.ltb_ge; lia).
  unfold bind.
  destruct (permutation_Permutation pop_size st) as (y & st' & -> & Hy).
  exists (take size y), st'. split; [done|].
  assert (length y = pop_size) as Hlen by (by rewrite Hy, length_seq).
  split; [rewrite length_take; lia|]. split.
  - eapply sublist_NoDup, sublist_take. rewrite Hy. apply NoDup_seq.
  - apply Forall_take. rewrite Hy. apply Forall_seq. lia.
Qed.

(** Conversely the generator reaches every selection: each duplicate-free
    sequence of [size] indices below [pop_size] is drawn from some state. *)

Lemma swap_lookup i j x q xi xj :
  x !! i = Some xi → x !! j = Some xj →
  swap i j x !! q
  = if decide (q = i) then Some xj else if decide (q = j) then Some xi
    else x !! q.
Proof.
  intros Hi Hj. unfold swap. rewrite Hi, Hj.
  pose proof (lookup_lt_Some _ _ _ Hi). pose proof (lookup_lt_Some _ _ _ Hj).
  rewrite !list_lookup_insert, !length_insert.
  repeat case_decide; subst; try done; try lia; naive_solver.
Qed.

Lemma shuffle_from_reaches p :
  NoDup p →
  ∀ i x, x ≡ₚ p → i < length x ∨ (i = 0 ∧ x = []) →
    (∀ q, i < q → x !! q = p !! q) →
    ∃ st, (shuffle_from i x st).1 = inr p.
Proof.
  intros Hnd i. induction i as [|i IH]; intros x Hperm Hi Hagree.
  - exists (λ _, 0). simpl. f_equal. apply list_eq. intros [|q].
    + pose proof (Permutation_length Hperm) as Hlen.
      destruct x as [|a t], p as [|b t']; simplify_eq/=; [done|].
      assert (t = t') as <-.
      { apply list_eq. intros q. apply (Hagree (S q)). lia. }
      f_equal.
      assert (a ∈ b :: t) as Ha by (rewrite <- Hperm; left).
      apply elem_of_cons in Ha as [->|Ha]; [done|].
      assert (NoDup (a :: t)) as [Hat _]%NoDup_cons by (by rewrite Hperm).
      done.
    + apply Hagree. lia.
  - destruct Hi as [Hi|[? _]]; [|done].
    assert (S i < length p) as Hip by (by rewrite <- Hperm).
    destruct (lookup_lt_is_Some_2 p (S i) Hip) as [target Htarget].
    assert (target ∈ x) as [j Hj]%list_elem_of_lookup_1.
    { rewrite Hperm. by eapply list_elem_of_lookup_2. }
    assert (j ≤ S i) as Hji.
    { destruct (decide (j ≤ S i)) as [|Hgt]; [done|].
      rewrite Hagree in Hj by lia.
      pose proof (proj1 (NoDup_alt p) Hnd _ _ _ Hj Htarget). lia. }
    destruct (lookup_lt_is_Some_2 x (S i) Hi) as [xi Hxi].
    destruct (IH (swap (S i) j x)) as [st Hst].
    + by rewrite swap_Permutation.
    + left. rewrite (Permutation_length (swap_Permutation _ _ _)). lia.
    + intros q Hq. rewrite (swap_lookup _ _ _ _ xi target) by done.
      repeat case_decide; subst; try lia; [done|]. apply Hagree. lia.
    + exists (stream_cons j st). cbn [shuffle_from].
      unfold bind, random_interval, stream_cons. cbv beta iota.
      rewrite Nat.mod_small by lia. exact Hst.
Qed.

Lemma choice_reaches pop_size (idxs : list nat) :
  NoDup idxs → Forall (λ j, j < pop_size) idxs →
  ∃ st, (choice pop_size (length idxs) st).1 = inr idxs.
Proof.
  intros Hnd Hlt.
  set (rest := filter (λ j, j ∉ idxs) (seq 0 pop_size)).
  assert (NoDup (idxs ++ rest)) as Hp_nd.
  { apply NoDup_app. split; [done|]. split.
    - intros j Hj [Hnot _]%list_elem_of_filter. done.
    - apply NoDup_filter, NoDup_seq. }
  assert (seq 0 pop_size ≡ₚ idxs ++ rest) as Hperm.
  { apply NoDup_Permutation; [apply NoDup_seq|done|].
    intros j. rewrite elem_of_app, elem_of_seq. unfold rest.
    rewrite list_elem_of_filter, elem_of_seq. split.
    - intros Hj. destruct (decide (j ∈ idxs)); [by left|by right].
    - intros [Hj|[_ Hj]]; [|done].
      pose proof (proj1 (Forall_forall _ _) Hlt j Hj). simpl in *. lia. }
  pose proof (Permutation_length Hperm) as Hlen.
  rewrite length_seq, length_app in Hlen.
  destruct (shuffle_from_reaches (idxs ++ rest) Hp_nd
              (length (seq 0 pop_size) - 1) (seq 0 pop_size) Hperm)
    as [st Hst].
  { rewrite length_seq. destruct pop_size; [right|left; lia]. done. }
  { intros q Hq. rewrite length_seq in Hq.
    rewrite !lookup_ge_None_2; [done|rewrite length_app|rewrite length_seq];
      lia. }
  exists st. unfold choice.
  assert ((pop_size =? 0) && negb (length idxs =? 0) = false) as ->.
  { destruct (Nat.eqb_spec pop_size 0) as [->|]; [|done].
    assert (length idxs = 0) as -> by lia. done. }
  assert ((pop_size <? length idxs) = false) as -> by (apply Nat.ltb_ge; lia).
  unfold bind, permutation, shuffle.
  destruct (shuffle_from _ _ st) as [[e|y] st']; simplify_eq/=.
  by rewrite take_app_length.
Qed.

(* ===================================================================== *)
(** ** The sampler's loops *)
(* ===================================================================== *)

Section Sampler.
Context {V : Type} `{!Scalar V}.
Implicit Types (lt : @Tensor2 V) (v : @Tensor1 V) (feats : list (@Tensor1 V)).

Lemma setitem_fits lt r v :
  r < length (b_rows lt) → length (t_data v) = (b_shape lt).2 →
  setitem lt r v
  = inr (with_row lt r (convert (t_dtype v) (b_dtype lt) <$> t_data v)).
Proof. intros ??. unfold setitem. by rewrite !decide_True. Qed.

(** The inner loop, started at slot [k0]: it raises nothing, leaves the
    generator alone, writes row [idx*K + k0 + i] from the [i]-th drawn
    feature and touches no other row. *)
Lemma write_rows_spec (K idx : nat) feats (c : nat) :
  Forall (λ v, length (t_data v) = c) feats →
  ∀ (idxs : list nat) (k0 : nat) lt (st : RandomState),
    Forall (λ j, j < length feats) idxs →
    (b_shape lt).2 = c →
    idx * K + k0 + length idxs ≤ length (b_rows lt) →
    ∃ lt',
      for_each
        (λ lt_feats '(k, rand_idx),
           match feats !! rand_idx with
           | Some v => lift (setitem lt_feats (idx * K + k) v)
           | None => raise IndexError
           end)
        (imap (λ i x, (k0 + i, x)) idxs) lt st = (inr lt', st) ∧
      b_dtype lt' = b_dtype lt ∧ b_device lt' = b_device lt ∧
      b_shape lt' = b_shape lt ∧
      length (b_rows lt') = length (b_rows lt) ∧
      (∀ p, p < idx * K + k0 ∨ idx * K + k0 + length idxs ≤ p →
            b_rows lt' !! p = b_rows lt !! p) ∧
      (∀ i j v, idxs !! i = Some j → feats !! j = Some v →
            b_rows lt' !! (idx * K + k0 + i)
            = Some (convert (t_dtype v) (b_dtype lt) <$> t_data v)).
Proof.
  intros Hfeats idxs.
  induction idxs as [|j idxs IH]; intros k0 lt st Hidx Hc Hlen.
  { exists lt. repeat split; auto. intros i j v Hi. by destruct i. }
  apply Forall_cons in Hidx as [Hj Hidx]. simpl in Hlen.
  destruct (lookup_lt_is_Some_2 feats j Hj) as [v Hv].
  assert (length (t_data v) = c) as Hvc.
  { eapply (proj1 (Forall_lookup _ _) Hfeats); eauto. }
  rewrite imap_cons. cbn [for_each]. unfold bind at 1.
  rewrite Hv. unfold lift at 1.
  rewrite setitem_fits by (rewrite ?Hc; auto with lia).
  set (lt1 := with_row lt _ _).
  rewrite (imap_ext _ (λ i x, (S k0 + i, x))) by (intros; simpl; f_equal; lia).
  destruct (IH (S k0) lt1 st Hidx) as (lt' & -> & Hd & Hdev & Hs & Hl & Hout & Hin).
  { done. }
  { subst lt1; simpl. rewrite length_insert. lia. }
  exists lt'. split; [done|]. subst lt1; simpl in *.
  rewrite length_insert in Hl.
  repeat split; auto.
  - intros p Hp. rewrite Hout by lia. apply list_lookup_insert_ne. lia.
  - intros [|i] j' v' Hi Hj'; simpl in Hi.
    + simplify_eq. rewrite Hout by lia.
      replace (idx * K + k0 + 0) with (idx * K + (k0 + 0)) by lia.
      apply list_lookup_insert_eq. lia.
    + replace (idx * K + k0 + S i) with (idx * K + S k0 + i) by lia. eauto.
Qed.

Lemma sample_second_spec (K idx : nat) feats (c : nat) lt st :
  Forall (λ v, length (t_data v) = c) feats →
  (b_shape lt).2 = c →
  idx * K + K ≤ length (b_rows lt) →
  ∃ idxs lt' st',
    sample_second K idx feats lt st = (inr lt', st') ∧
    choice (length feats) (min (length feats) K) st = (inr idxs, st') ∧
    length idxs = min (length feats) K ∧ NoDup idxs ∧
    b_dtype lt' = b_dtype lt ∧ b_device lt' = b_device lt ∧
    b_shape lt' = b_shape lt ∧
    length (b_rows lt') = length (b_rows lt) ∧
    (∀ p, p < idx * K ∨ idx * K + length idxs ≤ p →
          b_rows lt' !! p = b_rows lt !! p) ∧
    (∀ k j, idxs !! k = Some j →
       ∃ v, feats !! j = Some v ∧
            b_rows lt' !! (idx * K + k)
            = Some (convert (t_dtype v) (b_dtype lt) <$> t_data v)).
Proof.
  intros Hfeats Hc Hlen. unfold sample_second, bind.
  destruct (choice_spec (length feats) (min (length feats) K) st)
    as (idxs & st' & Hdraw & Hn & Hnd & Hlt); [lia|].
  rewrite Hdraw.
  destruct (write_rows_spec K idx feats c Hfeats idxs 0 lt st' Hlt Hc)
    as (lt' & Hrun & Hd & Hdev & Hs & Hl & Hout & Hin); [lia|].
  exists idxs, lt', st'. unfold enumerate. split; [exact Hrun|].
  repeat split; auto.
  - intros p Hp. apply Hout. lia.
  - intros k j Hk.
    assert (j < length feats) as Hj.
    { eapply (proj1 (Forall_lookup _ _) Hlt); eauto. }
    destruct (lookup_lt_is_Some_2 feats j Hj) as [v Hv].
    exists v. split; [done|].
    specialize (Hin k j v Hk Hv).
    by replace (idx * K + 0 + k) with (idx * K + k) in Hin by lia.
Qed.

Lemma enumerate_py_range_from (start : Z) (n m : nat) :
  imap (λ i x, (m + i, x)) ((λ i : nat, (start + Z.of_nat i)%Z) <$> seq m n)
  = (λ i : nat, (i, (start + Z.of_nat i)%Z)) <$> seq m n.
Proof.
  revert m. induction n as [|n IH]; intros m; [done|].
  cbn [seq fmap list_fmap]. rewrite imap_cons. f_equal.
  - f_equal. lia.
  - rewrite <- IH. apply imap_ext. intros; simpl; f_equal; lia.
Qed.

Lemma enumerate_py_range (start : Z) (n : nat) :
  enumerate (py_range start n)
  = (λ i : nat, (i, (start + Z.of_nat i)%Z)) <$> seq 0 n.
Proof. apply (enumerate_py_range_from start n 0). Qed.

Lemma second_sampled_ext rec start K c (rows rows' : list (list V)) i :
  (∀ p, p < i * K + K → rows' !! p = rows !! p) →
  second_sampled rec start K c rows i → second_sampled rec start K c rows' i.
Proof.
  intros Hsame. unfold second_sampled.
  destruct (rec !! _) as [feats|].
  - intros (idxs & Hdraw & Hn & Hnd & Hin & Hz). exists idxs.
    repeat split; auto.
    + intros k j Hk. destruct (Hin k j Hk) as (v & Hv & Hrow).
      exists v. split; [done|]. rewrite Hsame; [done|].
      apply lookup_lt_Some in Hk. lia.
    + intros k Hk. rewrite Hsame by lia. auto.
  - intros Hz k Hk. rewrite Hsame by lia. auto.
Qed.

Lemma window_inv_zeros rec start W K c :
  window_inv rec start W K c 0 (torch_zeros (W * K) c).
Proof.
  unfold window_inv, has_shape, torch_zeros; simpl.
  rewrite length_replicate. repeat split; auto.
  - apply Forall_replicate. apply length_replicate.
  - intros p Hp. apply lookup_replicate_2. lia.
  - intros i Hi. lia.
Qed.

Lemma window_loop_spec rec start W K c :
  record_channels c rec →
  ∀ (n m : nat) lt (st : RandomState),
    m + n = W → window_inv rec start W K c m lt →
    ∃ lt' st',
      for_each
        (λ lt_feats '(idx, sec),
           match rec !! sec with
           | Some feats => sample_second K idx feats lt_feats
           | None => ret lt_feats
           end)
        ((λ i : nat, (i, (start + Z.of_nat i)%Z)) <$> seq m n) lt st
      = (inr lt', st') ∧
      window_inv rec start W K c W lt'.
Proof.
  intros Hrec n. induction n as [|n IH]; intros m lt st HW Hinv.
  { exists lt, st. split; [done|]. assert (m = W) as <- by lia. done. }
  cbn [seq fmap list_fmap for_each]. unfold bind at 1.
  destruct Hinv as (Hd & Hdev & (Hs & Hl & Hrows) & Hz & Hdone).
  assert (m * K + K ≤ W * K) as HmK.
  { replace (m * K + K) with (S m * K) by lia.
    apply Nat.mul_le_mono_r. lia. }
  assert (∀ i, i < m → i * K + K ≤ m * K) as HiK.
  { intros i Hi. replace (i * K + K) with (S i * K) by lia.
    apply Nat.mul_le_mono_r. lia. }
  destruct (rec !! (start + Z.of_nat m)%Z) as [feats|] eqn:Hsec.
  - destruct (sample_second_spec K m feats c lt st)
      as (idxs & lt1 & st1 & -> & Hdraw & Hn & Hnd & Hd1 & Hdev1 & Hs1
          & Hl1 & Hout & Hin).
    { by eapply Hrec. }
    { by rewrite Hs. }
    { lia. }
    apply (IH (S m) lt1 st1); [lia|].
    unfold window_inv, has_shape. rewrite Hd1, Hdev1, Hs1, Hl1.
    repeat split; auto.
    + apply Forall_lookup. intros p row Hp.
      destruct (decide (m * K ≤ p < m * K + length idxs)) as [Hin_p|Hout_p].
      * destruct (lookup_lt_is_Some_2 idxs (p - m * K)) as [j Hj]; [lia|].
        destruct (Hin _ _ Hj) as (v & Hv & Hrow).
        replace (m * K + (p - m * K)) with p in Hrow by lia.
        rewrite Hrow in Hp. simplify_eq. rewrite length_fmap.
        eapply (proj1 (Forall_lookup _ _) (Hrec _ _ Hsec)); eauto.
      * rewrite Hout in Hp by lia.
        eapply (proj1 (Forall_lookup _ _) Hrows); eauto.
    + intros p Hp. rewrite Hout by lia. apply Hz. lia.
    + intros i Hi. destruct (decide (i = m)) as [->|Hne].
      * unfold second_sampled. rewrite Hsec. exists idxs.
        repeat split; auto.
        -- exists st. by rewrite Hdraw.
        -- intros k j Hk. destruct (Hin _ _ Hk) as (v & Hv & Hrow).
           exists v. split; [done|]. by rewrite Hrow, Hd.
        -- intros k Hk. rewrite Hout by lia. apply Hz. lia.
      * apply (second_sampled_ext _ _ _ _ (b_rows lt)).
        -- intros p Hp. apply Hout. specialize (HiK i). lia.
        -- apply Hdone. lia.
  - unfold ret at 1. apply (IH (S m) lt st); [lia|].
    unfold window_inv, has_shape. repeat split; auto.
    + intros p Hp. apply Hz. lia.
    + intros i Hi. destruct (decide (i = m)) as [->|Hne].
      * unfold second_sampled. rewrite Hsec. intros k Hk. apply Hz. lia.
      * apply Hdone. lia.
Qed.

(** The sampler on a resolved record: it returns, and the block it returns
    is float32 on the cpu with every window offset sampled. *)
Lemma sample_window_spec rec (W K c : nat) (timestamp : Z) (st : RandomState) :
  record_channels c rec →
  ∃ blk st',
    sample_window rec W K c timestamp st = (inr blk, st') ∧
    b_dtype blk = default_dtype ∧ b_device blk = cpu ∧
    has_shape (W * K) c blk ∧
    ∀ i, i < W →
      second_sampled rec (timestamp - Z.of_nat (W / 2))%Z K c (b_rows blk) i.
Proof.
  intros Hrec. unfold sample_window. rewrite enumerate_py_range.
  destruct (window_loop_spec rec (timestamp - Z.of_nat (W / 2))%Z W K c Hrec
              W 0 (torch_zeros (W * K) c) st)
    as (blk & st' & Hrun & Hd & Hdev & Hshape & _ & Hdone);
    [lia | apply window_inv_zeros |].
  exists blk, st'. auto.
Qed.

(** The same loop with the generator followed from the state the query
    starts in. *)

Lemma second_drawn_ext rec start K c (rows rows' : list (list V)) s s' i :
  (∀ p, p < i * K + K → rows' !! p = rows !! p) →
  second_drawn rec start K c rows s s' i →
  second_drawn rec start K c rows' s s' i.
Proof.
  intros Hsame. unfold second_drawn.
  destruct (rec !! _) as [feats|].
  - intros (idxs & Hdraw & Hn & Hnd & Hin & Hz). exists idxs.
    repeat split; auto.
    + intros k j Hk. destruct (Hin k j Hk) as (v & Hv & Hrow).
      exists v. split; [done|]. rewrite Hsame; [done|].
      apply lookup_lt_Some in Hk. lia.
    + intros k Hk. rewrite Hsame by lia. auto.
  - intros [Hst Hz]. split; [done|]. intros k Hk. rewrite Hsame by lia. auto.
Qed.

Lemma window_draws_inv_zeros rec start W K c st :
  window_draws_inv rec start W K c st 0 (torch_zeros (W * K) c).
Proof.
  unfold window_draws_inv, has_shape, torch_zeros; simpl.
  rewrite length_replicate. repeat split; auto.
  - apply Forall_replicate. apply length_replicate.
  - intros p Hp. apply lookup_replicate_2. lia.
  - intros i Hi. lia.
Qed.

Lemma state_at_key (rec : gmap Z (list (@Tensor1 V))) start K st m feats
    idxs st1 :
  rec !! (start + Z.of_nat m)%Z = Some feats →
  choice (length feats) (min (length feats) K) (state_at rec start K st m)
  = (inr idxs, st1) →
  state_at rec start K st (S m) = st1.
Proof. intros Hsec Hdraw. cbn [state_at]. by rewrite Hsec, Hdraw. Qed.

Lemma state_at_no_key (rec : gmap Z (list (@Tensor1 V))) start K st m :
  rec !! (start + Z.of_nat m)%Z = None →
  state_at rec start K st (S m) = state_at rec start K st m.
Proof. intros Hsec. cbn [state_at]. by rewrite Hsec. Qed.

Lemma window_loop_draws rec start W K c (st0 : RandomState) :
  record_channels c rec →
  ∀ (n m : nat) lt,
    m + n = W → window_draws_inv rec start W K c st0 m lt →
    ∃ lt',
      for_each
        (λ lt_feats '(idx, sec),
           match rec !! sec with
           | Some feats => sample_second K idx feats lt_feats
           | None => ret lt_feats
           end)
        ((λ i : nat, (i, (start + Z.of_nat i)%Z)) <$> seq m n) lt
        (state_at rec start K st0 m)
      = (inr lt', state_at rec start K st0 W) ∧
      window_draws_inv rec start W K c st0 W lt'.
Proof.
  intros Hrec n. induction n as [|n IH]; intros m lt HW Hinv.
  { exists lt. assert (m = W) as <- by lia. done. }
  cbn [seq fmap list_fmap for_each]. unfold bind at 1.
  destruct Hinv as (Hd & Hdev & (Hs & Hl & Hrows) & Hz & Hdone).
  assert (m * K + K ≤ W * K) as HmK.
  { replace (m * K + K) with (S m * K) by lia.
    apply Nat.mul_le_mono_r. lia. }
  assert (∀ i, i < m → i * K + K ≤ m * K) as HiK.
  { intros i Hi. replace (i * K + K) with (S i * K) by lia.
    apply Nat.mul_le_mono_r. lia. }
  destruct (rec !! (start + Z.of_nat m)%Z) as [feats|] eqn:Hsec.
  - destruct (sample_second_spec K m feats c lt (state_at rec start K st0 m))
      as (idxs & lt1 & st1 & -> & Hdraw & Hn & Hnd & Hd1 & Hdev1 & Hs1
          & Hl1 & Hout & Hin).
    { by eapply Hrec. }
    { by rewrite Hs. }
    { lia. }
    pose proof (state_at_key _ _ _ _ _ _ _ _ Hsec Hdraw) as Hnext.
    rewrite <- Hnext. apply (IH (S m) lt1); [lia|].
    unfold window_draws_inv, has_shape. rewrite Hd1, Hdev1, Hs1, Hl1.
    repeat split; auto.
    + apply Forall_lookup. intros p row Hp.
      destruct (decide (m * K ≤ p < m * K + length idxs)) as [Hin_p|Hout_p].
      * destruct (lookup_lt_is_Some_2 idxs (p - m * K)) as [j Hj]; [lia|].
        destruct (Hin _ _ Hj) as (v & Hv & Hrow).
        replace (m * K + (p - m * K)) with p in Hrow by lia.
        rewrite Hrow in Hp. simplify_eq. rewrite length_fmap.
        eapply (proj1 (Forall_lookup _ _) (Hrec _ _ Hsec)); eauto.
      * rewrite Hout in Hp by lia.
        eapply (proj1 (Forall_lookup _ _) Hrows); eauto.
    + intros p Hp. rewrite Hout by lia. apply Hz. lia.
    + intros i Hi. destruct (decide (i = m)) as [->|Hne].
      * unfold second_drawn. rewrite Hsec. exists idxs.
        repeat split; auto.
        -- by rewrite Hnext.
        -- intros k j Hk. destruct (Hin _ _ Hk) as (v & Hv & Hrow).
           exists v. split; [done|]. by rewrite Hrow, Hd.
        -- intros k Hk. rewrite Hout by lia. apply Hz. lia.
      * apply (second_drawn_ext _ _ _ _ (b_rows lt)).
        -- intros p Hp. apply Hout. specialize (HiK i). lia.
        -- apply Hdone. lia.
  - unfold ret at 1.
    pose proof (state_at_no_key _ _ K st0 _ Hsec) as Hnext.
    rewrite <- Hnext. apply (IH (S m) lt); [lia|].
    unfold window_draws_inv, has_shape. repeat split; auto.
    + intros p Hp. apply Hz. lia.
    + intros i Hi. destruct (decide (i = m)) as [->|Hne].
      * unfold second_drawn. rewrite Hsec. split; [done|].
        intros k Hk. apply Hz. lia.
      * apply Hdone. lia.
Qed.

(** The sampler on a resolved record, started at [st]: it returns in the
    state [state_at .. W], and at each offset the rows come from the draw
    made in the state reached there. *)
Lemma sample_window_draws rec (W K c : nat) (timestamp : Z) (st : RandomState) :
  record_channels c rec →
  let start := (timestamp - Z.of_nat (W / 2))%Z in
  ∃ blk,
    sample_window rec W K c timestamp st
    = (inr blk, state_at rec start K st W) ∧
    b_dtype blk = default_dtype ∧ b_device blk = cpu ∧
    has_shape (W * K) c blk ∧
    ∀ i, i < W →
      second_drawn rec start K c (b_rows blk)
                   (state_at rec start K st i) (state_at rec start K st (S i)) i.
Proof.
  intros Hrec start. unfold sample_window. rewrite enumerate_py_range.
  destruct (window_loop_draws rec start W K c st Hrec
              W 0 (torch_zeros (W * K) c))
    as (blk & Hrun & Hd & Hdev & Hshape & _ & Hdone);
    [lia | apply window_draws_inv_zeros |].
  exists blk. auto.
Qed.

End Sampler.

(* ===================================================================== *)
(** ** The sampler on the heap against the sampler on values *)
(* ===================================================================== *)

Section InPlaceSampler.
Context {V : Type} `{!Scalar V}.
Implicit Types (lt : @Tensor2 V) (h : gmap nat (@Tensor2 V)).

(** A loop whose body assigns into the tensor at [a] as the body on values
    transforms its value does, as a whole, what the loop on values does:
    same outcome, same generator state, and a heap that differs from the
    initial one at [a] only. *)
Lemma hfor_each_for_each {A} (a : nat) (body : @Tensor2 V → A → M (@Tensor2 V))
    (hbody : A → InPlace.MH unit) (xs : list A) :
  (∀ x lt h st, h !! a = Some lt →
     ∃ lt1, hbody x h st
            = (outcome (body lt x st).1, <[a := lt1]> h, (body lt x st).2) ∧
            ∀ lt', (body lt x st).1 = inr lt' → lt1 = lt') →
  ∀ lt h st, h !! a = Some lt →
    ∃ lt1, InPlace.hfor_each hbody xs h st
           = (outcome (for_each body xs lt st).1, <[a := lt1]> h,
              (for_each body xs lt st).2) ∧
           ∀ lt', (for_each body xs lt st).1 = inr lt' → lt1 = lt'.
Proof.
  intros Hbody. induction xs as [|x xs IH]; intros lt h st Hlt.
  { exists lt. split; [|by intros ? [= ->]].
    cbn. unfold InPlace.hret. by rewrite insert_id. }
  cbn [InPlace.hfor_each for_each]. unfold InPlace.hbind, bind.
  destruct (Hbody x lt h st Hlt) as (lt1 & -> & Hlt1).
  destruct (body lt x st) as [[e|lt'] st1]; cbn [outcome fst snd] in *.
  { exists lt1. split; [done|]. intros ? [=]. }
  rewrite (Hlt1 lt' eq_refl).
  destruct (IH lt' (<[a := lt']> h) st1) as (lt2 & -> & Hlt2).
  { apply lookup_insert_eq. }
  exists lt2. by rewrite insert_insert_eq.
Qed.

Lemma setitem_in_place (a r : nat) (v : @Tensor1 V) lt h st :
  h !! a = Some lt →
  ∃ lt1, InPlace.setitem a r v h st
         = (outcome (setitem lt r v), <[a := lt1]> h, st) ∧
         ∀ lt', setitem lt r v = inr lt' → lt1 = lt'.
Proof.
  intros Hlt. unfold InPlace.setitem. rewrite Hlt.
  destruct (setitem lt r v) as [e|lt'] eqn:Hset; cbn [outcome].
  - exists lt. split; [by rewrite insert_id|]. intros ? [=].
  - exists lt'. split; [done|]. by intros ? [= ->].
Qed.

Lemma sample_second_in_place (K idx : nat) (feats : list (@Tensor1 V))
    (a : nat) lt h st :
  h !! a = Some lt →
  ∃ lt1, InPlace.sample_second K idx feats a h st
         = (outcome (sample_second K idx feats lt st).1, <[a := lt1]> h,
            (sample_second K idx feats lt st).2) ∧
         ∀ lt', (sample_second K idx feats lt st).1 = inr lt' → lt1 = lt'.
Proof.
  intros Hlt. unfold InPlace.sample_second, sample_second.
  unfold InPlace.hbind, InPlace.hdraw, bind.
  destruct (choice _ _ st) as [[e|idxs] st1].
  { exists lt. split; [by rewrite insert_id|]. intros ? [=]. }
  apply hfor_each_for_each; [|done].
  intros [k j] lt0 h0 st0 Hlt0.
  destruct (feats !! j) as [v|].
  - unfold lift. cbn [fst snd]. by apply setitem_in_place.
  - exists lt0. split; [by rewrite insert_id|]. intros ? [=].
Qed.

(** The sampler on the heap allocates one tensor, at an address no tensor
    alive has, leaves every other tensor as it was, and ends as the sampler
    on values does, with that value at the new address. *)
Lemma sample_window_in_place (rec : gmap Z (list (@Tensor1 V)))
    (W K c : nat) (timestamp : Z) h st blk st' :
  sample_window rec W K c timestamp st = (inr blk, st') →
  ∃ a, InPlace.sample_window rec W K c timestamp h st
       = (inr a, <[a := blk]> h, st') ∧ h !! a = None.
Proof.
  intros Hrun. unfold InPlace.sample_window, sample_window in *.
  exists (fresh (dom h)).
  split; [|apply not_elem_of_dom, is_fresh].
  unfold InPlace.hbind at 1, InPlace.torch_zeros at 1.
  cbv zeta. unfold InPlace.hbind at 1.
  edestruct (hfor_each_for_each (fresh (dom h))
    (λ lt_feats '(idx, sec),
       match rec !! sec with
       | Some feats => sample_second K idx feats lt_feats
       | None => ret lt_feats
       end)
    (λ '(idx, sec),
       match rec !! sec with
       | Some feats => InPlace.sample_second K idx feats (fresh (dom h))
       | None => InPlace.hret tt
       end)) as (lt1 & Heq & Hlt1); last first.
  - rewrite Heq, Hrun. cbn [outcome fst snd]. unfold InPlace.hret.
    rewrite (Hlt1 blk) by (by rewrite Hrun).
    by rewrite insert_insert_eq.
  - apply lookup_insert_eq.
  - intros [idx sec] lt0 h0 st0 Hlt0.
    destruct (rec !! sec) as [feats|].
    + by apply sample_second_in_place.
    + exists lt0. split; [by rewrite insert_id|]. by intros ? [= ->].
Qed.

End InPlaceSampler.

(* ===================================================================== *)
(** ** The windowed sampler: what a query returns *)
(* ===================================================================== *)

Section SamplerTheorems.
Context {V : Type} `{!Scalar V}.
Implicit Types (self : @LFB V) (rec : gmap Z (list (@Tensor1 V))).

Lemma sample_resolved self video_id timestamp rec st :
  video_features_of self video_id = inr rec →
  sample_long_term_features self video_id timestamp st
  = sample_window rec (window_size self) (max_num_sampled_feat self)
                  (lfb_channels self) timestamp st.
Proof.
  intros Hrec. unfold sample_long_term_features, bind, lift. by rewrite Hrec.
Qed.

(** C1. For an entity the backend resolves to a record (of feature vectors
    with [lfb_channels] entries), any integer timestamp and any state [st]
    of the generator, the sampler returns a block of shape
    (window_size * K, channels). With start = timestamp - window_size // 2
    and sec = start + i for each offset i below window_size, and with
    [sts i] the generator's state when the loop reaches offset i (so
    [sts 0 = st], and the query ends in [sts window_size]): if sec is a key
    with f features, the generator makes one draw there,
    [choice(range(f), min(f, K), replace=False)] in state [sts i], which
    returns min(f, K) pairwise distinct indices and leaves the state
    [sts (i+1)]; rows i*K .. i*K + min(f, K) - 1 hold the features at those
    indices, in the order drawn, and the other rows of the segment are
    zero; the draw is random in that every duplicate-free sequence of
    min(f, K) indices below f is what [choice] returns in some state. If
    sec is no key, the generator is not used and all K rows of the segment
    are zero. *)
Theorem sample_long_term_features_window self video_id timestamp rec st :
  video_features_of self video_id = inr rec →
  record_channels (lfb_channels self) rec →
  let W := window_size self in
  let K := max_num_sampled_feat self in
  let start := (timestamp - Z.of_nat (W / 2))%Z in
  ∃ blk (sts : nat → RandomState),
    sts 0 = st ∧
    sample_long_term_features self video_id timestamp st = (inr blk, sts W) ∧
    has_shape (W * K) (lfb_channels self) blk ∧
    ∀ i, i < W →
      match rec !! (start + Z.of_nat i)%Z with
      | Some feats =>
          ∃ idxs : list nat,
            choice (length feats) (min (length feats) K) (sts i)
            = (inr idxs, sts (S i)) ∧
            length idxs = min (length feats) K ∧ NoDup idxs ∧
            (∀ k j, idxs !! k = Some j →
               ∃ v, feats !! j = Some v ∧
                    b_rows blk !! (i * K + k) = Some (row_of v)) ∧
            (∀ k, min (length feats) K ≤ k < K →
               b_rows blk !! (i * K + k) = Some (zero_row (lfb_channels self))) ∧
            (∀ sel : list nat,
               NoDup sel → length sel = min (length feats) K →
               Forall (λ j, j < length feats) sel →
               ∃ st0 : RandomState,
                 (choice (length feats) (min (length feats) K) st0).1
                 = inr sel)
      | None =>
          sts (S i) = sts i ∧
          ∀ k, k < K →
            b_rows blk !! (i * K + k) = Some (zero_row (lfb_channels self))
      end.
Proof.
  intros Hres Hrec W K start.
  destruct (sample_window_draws rec W K (lfb_channels self) timestamp st Hrec)
    as (blk & Hrun & _ & _ & Hshape & Hseg).
  exists blk, (state_at rec start K st). split; [done|].
  rewrite (sample_resolved _ _ _ rec) by done.
  split; [exact Hrun|]. split; [exact Hshape|].
  intros i Hi. specialize (Hseg i Hi). unfold second_drawn in Hseg.
  fold start in Hseg. destruct (rec !! _) as [feats|]; [|exact Hseg].
  destruct Hseg as (idxs & Hdraw & Hn & Hnd & Hin & Hz).
  exists idxs. split; [exact Hdraw|]. split; [exact Hn|]. split; [exact Hnd|].
  split; [exact Hin|]. split.
  - intros k Hk. apply Hz. lia.
  - intros sel Hsel Hlen Hlt. rewrite <- Hlen. by apply choice_reaches.
Qed.

Lemma sample_second_empty (K idx : nat) (lt : @Tensor2 V) st :
  sample_second K idx [] lt st = (inr lt, st).
Proof. reflexivity. Qed.

(** C2. When the record has no features at any second of the window
    [timestamp - window_size//2, timestamp - window_size//2 + window_size)
    (no key there, or a key with an empty feature list), the returned block
    has shape (window_size * K, channels) and every row of it is zero. *)
Theorem sample_long_term_features_zero_fill self video_id timestamp rec st :
  video_features_of self video_id = inr rec →
  let W := window_size self in
  let K := max_num_sampled_feat self in
  let start := (timestamp - Z.of_nat (W / 2))%Z in
  (∀ sec, (start ≤ sec < start + Z.of_nat W)%Z →
     rec !! sec = None ∨ rec !! sec = Some []) →
  ∃ blk,
    sample_long_term_features self video_id timestamp st = (inr blk, st) ∧
    b_shape blk = (W * K, lfb_channels self) ∧
    b_rows blk = replicate (W * K) (zero_row (lfb_channels self)).
Proof.
  intros Hres W K start Hnone.
  exists (torch_zeros (W * K) (lfb_channels self)).
  split; [|done].
  rewrite (sample_resolved _ _ _ rec) by done.
  unfold sample_window. rewrite enumerate_py_range. fold W K start.
  generalize (torch_zeros (V:=V) (W * K) (lfb_channels self)). intros lt.
  assert (∀ i, i ∈ seq 0 W → (start ≤ start + Z.of_nat i < start + Z.of_nat W)%Z)
    as Hin.
  { intros i [_ Hi]%elem_of_seq. lia. }
  induction (seq 0 W) as [|i l IH]; [done|].
  cbn [fmap list_fmap for_each]. unfold bind at 1.
  destruct (Hnone _ (Hin i ltac:(left))) as [-> | ->].
  - unfold ret at 1. apply IH. intros j Hj. apply Hin. by right.
  - rewrite sample_second_empty. apply IH. intros j Hj. apply Hin. by right.
Qed.

(** C4. For one second's sampling, whatever the generator's state (so for
    every outcome of the draw), the sampler draws its indices once, with
    [choice], and the indices drawn are pairwise distinct, each a valid
    index into that second's features; the rows are then written from
    exactly these indices. *)
Theorem sampled_indices_distinct (K idx : nat) (feats : list (@Tensor1 V))
    (lt_feats : @Tensor2 V) (st : RandomState) :
  ∃ (random_lfb_indices : list nat) (st' : RandomState),
    choice (length feats) (min (length feats) K) st
    = (inr random_lfb_indices, st') ∧
    NoDup random_lfb_indices ∧
    (∀ a b j, random_lfb_indices !! a = Some j →
              random_lfb_indices !! b = Some j → a = b) ∧
    Forall (λ j, j < length feats) random_lfb_indices ∧
    sample_second K idx feats lt_feats st
    = for_each
        (λ lt_feats '(k, rand_idx),
           match feats !! rand_idx with
           | Some v => lift (setitem lt_feats (idx * K + k) v)
           | None => raise IndexError
           end)
        (enumerate random_lfb_indices) lt_feats st'.
Proof.
  destruct (choice_spec (length feats) (min (length feats) K) st)
    as (idxs & st' & Hdraw & Hn & Hnd & Hlt); [lia|].
  exists idxs, st'. split; [done|]. split; [done|]. split.
  { intros a b j. by apply NoDup_alt. }
  split; [done|]. unfold sample_second, bind. by rewrite Hdraw.
Qed.

(** A half-precision vector is copied into a float32 row entry by entry,
    unchanged. *)
Lemma row_of_half (v : @Tensor1 V) :
  t_dtype v = float16 ∨ t_dtype v = bfloat16 ∨ t_dtype v = float32 →
  row_of v = t_data v.
Proof.
  intros Hv. unfold row_of, convert.
  destruct Hv as [-> | [-> | ->]]; simpl; apply list_fmap_id.
Qed.

(** C10. Every query returns a freshly allocated block: run on any heap of
    tensors alive, the sampler returns an address that no tensor of the
    heap has, leaves every tensor of the heap as it was, and the tensor at
    the new address is the block the sampler on values returns. Whatever
    dtype the stored feature vectors have, the block is of the default
    dtype float32 (and on the cpu), and each sampled row holds the entries
    of a stored vector cast to float32. In particular a vector stored at
    half precision appears with its entries unchanged in a block whose
    dtype is float32, not the stored float16. *)
Theorem sample_long_term_features_float32 self video_id timestamp rec
    (h : gmap nat (@Tensor2 V)) st :
  video_features_of self video_id = inr rec →
  record_channels (lfb_channels self) rec →
  let W := window_size self in
  let K := max_num_sampled_feat self in
  let start := (timestamp - Z.of_nat (W / 2))%Z in
  ∃ (a : nat) blk st',
    InPlace.sample_long_term_features self video_id timestamp h st
    = (inr a, <[a := blk]> h, st') ∧
    h !! a = None ∧
    sample_long_term_features self video_id timestamp st = (inr blk, st') ∧
    b_dtype blk = float32 ∧ b_device blk = cpu ∧
    ∀ i feats, i < W → rec !! (start + Z.of_nat i)%Z = Some feats →
      ∃ idxs : list nat,
        length idxs = min (length feats) K ∧ NoDup idxs ∧
        ∀ k j, idxs !! k = Some j →
          ∃ v, feats !! j = Some v ∧
               b_rows blk !! (i * K + k)
               = Some (convert (t_dtype v) float32 <$> t_data v) ∧
               (t_dtype v = float16 →
                b_rows blk !! (i * K + k) = Some (t_data v) ∧
                b_dtype blk ≠ t_dtype v).
Proof.
  intros Hres Hrec W K start.
  destruct (sample_window_spec rec W K (lfb_channels self) timestamp st Hrec)
    as (blk & st' & Hrun & Hd & Hdev & _ & Hseg).
  destruct (sample_window_in_place rec W K (lfb_channels self) timestamp
              h st blk st' Hrun) as (a & Hat & Hfresh).
  exists a, blk, st'. split.
  { unfold InPlace.sample_long_term_features. by rewrite Hres. }
  split; [exact Hfresh|]. split.
  { by rewrite (sample_resolved _ _ _ rec). }
  split; [exact Hd|]. split; [exact Hdev|].
  intros i feats Hi Hsec. specialize (Hseg i Hi).
  unfold second_sampled in Hseg. fold start in Hseg. rewrite Hsec in Hseg.
  destruct Hseg as (idxs & _ & Hn & Hnd & Hin & _).
  exists idxs. split; [exact Hn|]. split; [exact Hnd|].
  intros k j Hk. destruct (Hin k j Hk) as (v & Hv & Hrow).
  exists v. split; [exact Hv|]. split; [exact Hrow|].
  intros Hv16. split.
  - rewrite Hrow, row_of_half by auto. done.
  - rewrite Hd, Hv16. done.
Qed.

Lemma segment_lookup (K i k : nat) (blk : @Tensor2 V) :
  k < K → segment K i blk !! k = b_rows blk !! (i * K + k).
Proof.
  intros Hk. unfold segment. by rewrite lookup_take_lt, lookup_drop.
Qed.

Lemma segment_length (K i : nat) (blk : @Tensor2 V) :
  i * K + K ≤ length (b_rows blk) → length (segment K i blk) = K.
Proof. intros Hk. unfold segment. rewrite length_take, length_drop. lia. Qed.

Lemma is_zero_row_zero (c : nat) : is_zero_row (zero_row (V:=V) c) = true.
Proof. apply bool_decide_eq_true. by apply Forall_replicate. Qed.

Lemma nonzero_rows_app (l1 l2 : list (list V)) :
  nonzero_rows (l1 ++ l2) = nonzero_rows l1 + nonzero_rows l2.
Proof. unfold nonzero_rows. by rewrite filter_app, length_app. Qed.

Lemma nonzero_rows_le (l : list (list V)) : nonzero_rows l ≤ length l.
Proof. apply length_filter. Qed.

Lemma nonzero_rows_all (l : list (list V)) :
  Forall (λ row, is_zero_row row = false) l → nonzero_rows l = length l.
Proof.
  unfold nonzero_rows. induction 1 as [|row l Hrow _ IH]; [done|].
  rewrite filter_cons_True by done. simpl. by rewrite IH.
Qed.

Lemma nonzero_rows_none (l : list (list V)) :
  Forall (λ row, is_zero_row row = true) l → nonzero_rows l = 0.
Proof.
  unfold nonzero_rows. induction 1 as [|row l Hrow _ IH]; [done|].
  rewrite filter_cons_False by (by rewrite Hrow). done.
Qed.

(** C3, as the code has it. For a second of the window holding f features
    (each of [lfb_channels] entries), the sampler fills min(f, K) rows of
    that second's segment and leaves the rest zero, so the segment never
    has more than min(f, K) non-zero rows, for any f; it has exactly
    min(f, K) of them when the float32 copy of every feature vector at that
    second is non-zero. *)
Theorem nonzero_rows_per_second self video_id timestamp rec st :
  video_features_of self video_id = inr rec →
  record_channels (lfb_channels self) rec →
  let W := window_size self in
  let K := max_num_sampled_feat self in
  let start := (timestamp - Z.of_nat (W / 2))%Z in
  ∃ blk st',
    sample_long_term_features self video_id timestamp st = (inr blk, st') ∧
    ∀ i feats, i < W → rec !! (start + Z.of_nat i)%Z = Some feats →
      nonzero_rows (segment K i blk) ≤ min (length feats) K ∧
      (Forall (λ v, is_zero_row (row_of v) = false) feats →
       nonzero_rows (segment K i blk) = min (length feats) K).
Proof.
  intros Hres Hrec W K start.
  destruct (sample_window_spec rec W K (lfb_channels self) timestamp st Hrec)
    as (blk & st' & Hrun & _ & _ & (_ & Hlen & _) & Hseg).
  exists blk, st'. rewrite (sample_resolved _ _ _ rec) by done.
  split; [exact Hrun|]. intros i feats Hi Hsec.
  specialize (Hseg i Hi). unfold second_sampled in Hseg.
  fold start in Hseg. rewrite Hsec in Hseg.
  destruct Hseg as (idxs & _ & Hn & _ & Hin & Hz).
  assert (i * K + K ≤ length (b_rows blk)) as HiK.
  { rewrite Hlen. replace (i * K + K) with (S i * K) by lia.
    apply Nat.mul_le_mono_r. lia. }
  pose proof (segment_length K i blk HiK) as Hslen.
  set (n := min (length feats) K) in *.
  rewrite <- (take_drop n (segment K i blk)), nonzero_rows_app.
  assert (nonzero_rows (drop n (segment K i blk)) = 0) as ->.
  { apply nonzero_rows_none, Forall_lookup. intros k row Hk.
    rewrite lookup_drop in Hk.
    pose proof (lookup_lt_Some _ _ _ Hk) as Hlt.
    rewrite segment_lookup, Hz in Hk by lia.
    simplify_eq. apply is_zero_row_zero. }
  assert (length (take n (segment K i blk)) = n) as Htake.
  { rewrite length_take. lia. }
  split.
  - pose proof (nonzero_rows_le (take n (segment K i blk))). lia.
  - intros Hnz. rewrite Nat.add_0_r, nonzero_rows_all; [done|].
    apply Forall_lookup. intros k row Hk.
    pose proof (lookup_lt_Some _ _ _ Hk) as Hlt.
    rewrite lookup_take_lt, segment_lookup in Hk by lia.
    destruct (lookup_lt_is_Some_2 idxs k) as [j Hj]; [lia|].
    destruct (Hin k j Hj) as (v & Hv & Hrow).
    rewrite Hrow in Hk. simplify_eq.
    eapply (proj1 (Forall_lookup _ _) Hnz); eauto.
Qed.

End SamplerTheorems.

(** C3 as stated fails: a stored feature vector may itself be zero. The
    bank of [Scenario.store_zero] holds one feature at second 10, the zero
    vector; the query at timestamp 10 fills the one row with it, and the
    segment has 0 non-zero rows where min(f, K) = 1. *)
Lemma nonzero_rows_not_min :
  ¬ (∀ (self : @LFB Z) video_id timestamp rec st blk st' i feats,
       video_features_of self video_id = inr rec →
       record_channels (lfb_channels self) rec →
       sample_long_term_features self video_id timestamp st = (inr blk, st') →
       i < window_size self →
       rec !! (timestamp - Z.of_nat (window_size self / 2) + Z.of_nat i)%Z
       = Some feats →
       nonzero_rows (segment (max_num_sampled_feat self) i blk)
       = min (length feats) (max_num_sampled_feat self)).
Proof.
  intros Hclaim.
  specialize (Hclaim Scenario.store_zero "z" 10%Z Scenario.rec_zero
                Scenario.rng0
                (mkTensor2 float32 cpu (1, 3) [[0; 0; 0]%Z]) Scenario.rng0
                0 [Scenario.vec [0; 0; 0]%Z]).
  assert (0 = 1) as Habs; [|discriminate Habs].
  apply Hclaim; [reflexivity| |reflexivity|simpl; lia|reflexivity].
  apply (bool_decide_unpack _). vm_compute. exact I.
Qed.

(* ===================================================================== *)
(** ** Loading: the merge of partitions *)
(* ===================================================================== *)

Section Loading.
Context {V : Type}.
Implicit Types (env : @Env V) (bank acc part : gmap string (gmap Z (list (@Tensor1 V)))).

Lemma load_partitions_undefined env prefix d modes acc bank x :
  load_partitions env prefix d modes acc = inr bank →
  (∀ j m part, modes !! j = Some m →
     torch_load env (lfb_path prefix m) d = inr part → part !! x = None) →
  bank !! x = acc !! x.
Proof.
  revert acc. induction modes as [|m modes IH]; intros acc Hload Hnone.
  { by simplify_eq/=. }
  cbn [load_partitions] in Hload.
  destruct (torch_load env (lfb_path prefix m) d) as [e|part] eqn:Hm; [done|].
  rewrite (IH _ Hload).
  - unfold dict_update. rewrite lookup_union_r; [done|].
    exact (Hnone 0 m part eq_refl Hm).
  - intros j m' part' Hj. exact (Hnone (S j) m' part' Hj).
Qed.

Lemma load_partitions_last env prefix d modes acc bank i m part x v :
  load_partitions env prefix d modes acc = inr bank →
  modes !! i = Some m →
  torch_load env (lfb_path prefix m) d = inr part →
  part !! x = Some v →
  (∀ j m' part', i < j → modes !! j = Some m' →
     torch_load env (lfb_path prefix m') d = inr part' → part' !! x = None) →
  bank !! x = Some v.
Proof.
  revert acc i. induction modes as [|m0 modes IH]; intros acc i Hload Hi Hm Hx Hlater.
  { done. }
  cbn [load_partitions] in Hload.
  destruct (torch_load env (lfb_path prefix m0) d) as [e|part0] eqn:Hm0; [done|].
  destruct i as [|i]; simpl in Hi.
  - simplify_eq. rewrite Hm in Hm0. simplify_eq.
    rewrite (load_partitions_undefined _ _ _ _ _ _ x Hload).
    + unfold dict_update. by apply lookup_union_Some_l.
    + intros j m' part' Hj. apply (Hlater (S j)); [lia|done].
  - apply (IH _ i Hload Hi Hm Hx).
    intros j m' part' Hij Hj. apply (Hlater (S j)); [lia|done].
Qed.

(** C5. When [load_lfb] merges the partitions named by an ordered sequence,
    a key defined in several of them ends up mapped to the value from the
    last partition of the sequence that defines it (and a key no partition
    defines is absent). For the sequence [A; B], both defining "x", the
    record of "x" is B's. *)
Theorem load_lfb_last_partition_wins env prefix modes map_location bank :
  load_lfb env prefix modes map_location = inr bank →
  (∀ i m part x v,
     modes !! i = Some m →
     torch_load env (lfb_path prefix m) map_location = inr part →
     part !! x = Some v →
     (∀ j m' part', i < j → modes !! j = Some m' →
        torch_load env (lfb_path prefix m') map_location = inr part' →
        part' !! x = None) →
     bank !! x = Some v) ∧
  (∀ x,
     (∀ j m part, modes !! j = Some m →
        torch_load env (lfb_path prefix m) map_location = inr part →
        part !! x = None) →
     bank !! x = None) ∧
  (∀ A B partA partB x vB,
     modes = [A; B] →
     torch_load env (lfb_path prefix A) map_location = inr partA →
     torch_load env (lfb_path prefix B) map_location = inr partB →
     is_Some (partA !! x) → partB !! x = Some vB →
     bank !! x = Some vB).
Proof.
  unfold load_lfb. intros Hload. split; [|split].
  - intros i m part x v. by apply (load_partitions_last _ _ _ _ ∅).
  - intros x Hnone.
    by rewrite (load_partitions_undefined _ _ _ _ _ _ x Hload).
  - intros A B partA partB x vB -> HA HB _ HxB.
    apply (load_partitions_last _ _ _ _ ∅ _ 1 B partB x vB Hload); auto.
    intros [|[|j]] m' part' Hj; [lia|lia|done].
Qed.

(* ===================================================================== *)
(** ** Construction: the errors of [__init__] *)
(* ===================================================================== *)

(** C8, as the code has it. [__init__] raises ValueError when the prefix
    path does not exist and when the device is none of 'gpu', 'cpu', 'lmdb';
    it raises AssertionError when the device is 'lmdb', the lmdb package is
    missing and the prefix path exists (the path is checked first). In each
    case no instance is returned and the environment is untouched. *)
Theorem init_errors env lfb_prefix_path (K W c : nat) dataset_modes
    (device : string) (construct_lmdb : bool) :
  (lfb_prefix_path ∉ fs_paths env →
   init env lfb_prefix_path K W c dataset_modes device construct_lmdb
   = (inl ValueError, env)) ∧
  (device ≠ "gpu" → device ≠ "cpu" → device ≠ "lmdb" →
   init env lfb_prefix_path K W c dataset_modes device construct_lmdb
   = (inl ValueError, env)) ∧
  (lfb_prefix_path ∈ fs_paths env →
   device = "lmdb" → lmdb_imported env = false →
   init env lfb_prefix_path K W c dataset_modes device construct_lmdb
   = (inl AssertionError, env)).
Proof.
  unfold init. split; [|split].
  - intros Hno. by rewrite bool_decide_eq_false_2.
  - intros Hg Hc Hl. destruct (bool_decide _); [|done]. simpl.
    by rewrite !bool_decide_eq_false_2.
  - intros Hyes -> Hlmdb. rewrite bool_decide_eq_true_2 by done. simpl.
    by rewrite Hlmdb.
Qed.

End Loading.

(** C8 as stated fails where two of its conditions meet: with the lmdb
    package missing and device 'lmdb', but the prefix path missing too, the
    constructor raises the ValueError of the path check, not the
    AssertionError of the import check. *)
Lemma init_lmdb_missing_not_assertion :
  ¬ (∀ (env : @Env Z) lfb_prefix_path K W c dataset_modes construct_lmdb,
       lmdb_imported env = false →
       (init env lfb_prefix_path K W c dataset_modes "lmdb" construct_lmdb).1
       = inl AssertionError).
Proof.
  intros Hclaim.
  specialize (Hclaim Scenario.env_bare "/data"%string 5 60 2048
                (ModesTuple ["train"; "val"]%string) true eq_refl).
  vm_compute in Hclaim. discriminate Hclaim.
Qed.

(* ===================================================================== *)
(** ** The combined-key accessor *)
(* ===================================================================== *)

Lemma str_split_length sep s :
  length (str_split sep s) = S (count_char sep s).
Proof.
  induction s as [|c s IH]; [done|]. cbn [str_split count_char].
  destruct (Ascii.eqb c sep); simpl; [by rewrite IH|].
  destruct (str_split sep s); simpl in *; lia.
Qed.

Lemma str_split_no_sep sep s : count_char sep s = 0 → str_split sep s = [s].
Proof.
  induction s as [|c s IH]; [done|]. cbn [str_split count_char].
  destruct (Ascii.eqb c sep); [done|]. simpl. intros Hs. by rewrite IH.
Qed.

Lemma str_split_join sep a b :
  count_char sep a = 0 →
  str_split sep (a +:+ String sep b) = a :: str_split sep b.
Proof.
  induction a as [|c a IH]; simpl.
  - intros _. by rewrite Ascii.eqb_refl.
  - destruct (Ascii.eqb c sep); [done|]. simpl. intros Ha. by rewrite IH.
Qed.

Lemma is_space_not_comma c : is_space c = true → Ascii.eqb c "," = false.
Proof.
  destruct (Ascii.eqb_spec c ",") as [->|]; [|done]. by vm_compute.
Qed.

Lemma all_space_no_comma s : all_space s = true → count_char "," s = 0.
Proof.
  induction s as [|c s IH]; [done|]. cbn [all_space count_char].
  intros [Hc Hs]%andb_true_iff. by rewrite (is_space_not_comma c Hc), IH.
Qed.

Lemma lstrip_count_comma s : count_char "," (lstrip s) = count_char "," s.
Proof.
  induction s as [|c s IH]; [done|]. cbn [lstrip].
  destruct (is_space c) eqn:Hc; [|done].
  cbn [count_char]. by rewrite (is_space_not_comma c Hc), IH.
Qed.

Lemma int_digits_no_comma s acc prev t :
  int_digits acc prev s = Some t → count_char "," s = 0.
Proof.
  revert acc prev. induction s as [|c s IH]; intros acc prev; [done|].
  cbn [int_digits]. destruct (digit_of c) as [d|] eqn:Hd.
  - intros Hs. cbn [count_char]. rewrite (IH _ _ Hs).
    destruct (Ascii.eqb_spec c ",") as [->|]; [by vm_compute in Hd|done].
  - destruct (Ascii.eqb_spec c "_") as [->|Hne].
    + destruct prev; [done|]. intros Hs. cbn [count_char].
      by rewrite (IH _ _ Hs).
    + destruct prev; [done|].
      destruct (all_space (String c s)) eqn:Hsp; [|done].
      intros _. by apply all_space_no_comma.
Qed.

Lemma int_unsigned_no_comma s t :
  int_unsigned s = Some t → count_char "," s = 0.
Proof.
  destruct s as [|c s]; [done|]. cbn [int_unsigned].
  destruct (digit_of c) as [d|] eqn:Hd; [|done].
  intros Hs%int_digits_no_comma. cbn [count_char]. rewrite Hs.
  destruct (Ascii.eqb_spec c ",") as [->|]; [by vm_compute in Hd|done].
Qed.

(** What [int] accepts holds no comma. *)
Lemma py_int_no_comma s t : py_int s = Some t → count_char "," s = 0.
Proof.
  unfold py_int. rewrite <- lstrip_count_comma.
  destruct (lstrip s) as [|c r]; [done|].
  destruct (Ascii.eqb_spec c "+") as [->|_].
  { intros Hs%int_unsigned_no_comma. by cbn [count_char]; rewrite Hs. }
  destruct (Ascii.eqb_spec c "-") as [->|_].
  { destruct (int_unsigned r) as [u|] eqn:Hu; [|done].
    apply int_unsigned_no_comma in Hu. intros _. by cbn [count_char]; rewrite Hu. }
  apply int_unsigned_no_comma.
Qed.

Section Accessor.
Context {V : Type} `{!Scalar V}.

(** C7. For a key "<video_id>,<timestamp>" (the id holding no comma) whose
    timestamp part [int] parses to t, [__getitem__] is the windowed sampler
    at (video_id, t): the same outcome from every generator state, so the
    same distribution of blocks. A key with no comma or with more than one
    raises ValueError, and so does a key whose timestamp part [int]
    rejects. *)
Theorem getitem_combined_key (self : @LFB V) :
  (∀ video_id timestamp t st,
     count_char "," video_id = 0 → py_int timestamp = Some t →
     getitem self (video_id +:+ "," +:+ timestamp) st
     = sample_long_term_features self video_id t st) ∧
  (∀ img_key st,
     count_char "," img_key ≠ 1 →
     getitem self img_key st = (inl ValueError, st)) ∧
  (∀ video_id timestamp st,
     count_char "," video_id = 0 → count_char "," timestamp = 0 →
     py_int timestamp = None →
     getitem self (video_id +:+ "," +:+ timestamp) st = (inl ValueError, st)).
Proof.
  split; [|split].
  - intros video_id timestamp t st Hid Hint. unfold getitem.
    change ("," +:+ timestamp) with (String "," timestamp).
    rewrite str_split_join, str_split_no_sep by eauto using py_int_no_comma.
    by rewrite Hint.
  - intros img_key st Hcount. unfold getitem.
    pose proof (str_split_length "," img_key) as Hlen.
    destruct (str_split "," img_key) as [|a [|b [|c l]]]; simpl in Hlen;
      try done.
    lia.
  - intros video_id timestamp st Hid Hts Hint. unfold getitem.
    change ("," +:+ timestamp) with (String "," timestamp).
    rewrite str_split_join, str_split_no_sep by done.
    by rewrite Hint.
Qed.

End Accessor.

(* ===================================================================== *)
(** ** The three backends *)
(* ===================================================================== *)

Lemma encode_inj s1 s2 : encode s1 = encode s2 → s1 = s2.
Proof.
  revert s2. induction s1 as [|c1 s1 IH]; intros [|c2 s2]; simpl.
  - done.
  - by destruct c2 as [? ? ? ? ? ? ? []].
  - by destruct c1 as [? ? ? ? ? ? ? []].
  - destruct c1 as [a0 a1 a2 a3 a4 a5 a6 []], c2 as [b0 b1 b2 b3 b4 b5 b6 []];
      intros Heq; simplify_eq; f_equal; auto.
Qed.

Lemma for_each_ext {A S} (f g : S → A → M S) xs acc st :
  (∀ acc x st, f acc x st = g acc x st) →
  for_each f xs acc st = for_each g xs acc st.
Proof.
  intros Hfg. revert acc st. induction xs as [|x xs IH]; intros acc st; [done|].
  cbn [for_each]. unfold bind. rewrite Hfg.
  destruct (g acc x st) as [[e|acc'] st']; [done|]. apply IH.
Qed.

Section Backends.
Context {V : Type} `{!Scalar V}.
Implicit Types (env : @Env V) (self : @LFB V)
  (bank acc part : gmap string (gmap Z (list (@Tensor1 V))))
  (rec : gmap Z (list (@Tensor1 V))).

Lemma relocate_rec_twice d1 d2 rec :
  relocate_rec d2 (relocate_rec d1 rec) = relocate_rec d2 rec.
Proof.
  unfold relocate_rec. rewrite <- map_fmap_compose. apply map_fmap_ext.
  intros sec feats _. simpl. rewrite <- list_fmap_compose.
  by apply list_fmap_ext.
Qed.

Lemma relocate_twice d1 d2 bank :
  relocate d2 (relocate d1 bank) = relocate d2 bank.
Proof.
  unfold relocate. rewrite <- map_fmap_compose. apply map_fmap_ext.
  intros vid rec _. apply relocate_rec_twice.
Qed.

(** Loading onto another device loads the same bank, placed there. *)
Lemma load_partitions_relocate env prefix d1 d2 modes acc bank :
  load_partitions env prefix d1 modes acc = inr bank →
  load_partitions env prefix d2 modes (relocate d2 acc)
  = inr (relocate d2 bank).
Proof.
  revert acc. induction modes as [|m modes IH]; intros acc Hload.
  { by simplify_eq/=. }
  cbn [load_partitions] in *. unfold torch_load in *.
  destruct (fs_pkl env !! lfb_path prefix m) as [raw|]; [|done].
  rewrite <- (IH _ Hload). f_equal. unfold dict_update, relocate.
  rewrite map_fmap_union. f_equal. symmetry. apply relocate_twice.
Qed.

(** The sampler reads the entries and dtype of a feature, not its device. *)
Lemma sample_second_relocate (K idx : nat) d (feats : list (@Tensor1 V))
    (lt : @Tensor2 V) st :
  sample_second K idx (to_device d <$> feats) lt st
  = sample_second K idx feats lt st.
Proof.
  unfold sample_second, bind. rewrite length_fmap.
  destruct (choice _ _ st) as [[e|idxs] st']; [done|].
  apply for_each_ext. intros acc [k j] st''. rewrite list_lookup_fmap.
  by destruct (feats !! j).
Qed.

Lemma sample_window_relocate d rec (W K c : nat) timestamp st :
  sample_window (relocate_rec d rec) W K c timestamp st
  = sample_window rec W K c timestamp st.
Proof.
  unfold sample_window. apply for_each_ext. intros acc [idx sec] st'.
  unfold relocate_rec. rewrite lookup_fmap.
  destruct (rec !! sec); simpl; [apply sample_second_relocate|done].
Qed.

(** After [load_lfb_on_lmdb] has put the bank, the record of every video id
    of the bank is read back under its encoded key. *)
Lemma lmdb_written_lookup bank (old : gmap string (@pickled V)) video_id rec :
  bank !! video_id = Some rec →
  map_fold (λ key value store, <[encode key := torch_save value]> store)
           old bank !! encode video_id
  = Some (Pickle rec).
Proof.
  revert rec.
  apply (map_fold_weak_ind
           (λ store (m : gmap string (gmap Z (list (@Tensor1 V)))),
              ∀ rec, m !! video_id = Some rec →
                     store !! encode video_id = Some (Pickle rec))).
  - intros rec. by rewrite lookup_empty.
  - intros key value m store Hkey IH rec.
    destruct (decide (key = video_id)) as [->|Hne].
    + rewrite !lookup_insert_eq. by intros [= ->].
    + rewrite lookup_insert_ne by done.
      rewrite lookup_insert_ne by (intros Heq; by apply Hne, encode_inj).
      apply IH.
Qed.

Lemma init_in_memory env prefix (K W c : nat) modes (device : string) construct
    self env' (d : Device) :
  (device = "gpu" ∧ d = cuda (dist_rank env)) ∨ (device = "cpu" ∧ d = cpu) →
  init env prefix K W c modes device construct = (inr self, env') →
  ∃ bank,
    load_lfb env prefix (as_tuple modes) d = inr bank ∧
    self = mkLFB prefix K W c (as_tuple modes) device (Some bank) None.
Proof.
  intros Hdev. unfold init.
  destruct (bool_decide (prefix ∈ fs_paths env)); simpl; [|done].
  destruct Hdev as [[-> ->] | [-> ->]]; simpl.
  - destruct (load_lfb _ _ _ _) as [e|bank]; [done|].
    intros [= <- _]. by exists bank.
  - destruct (load_lfb _ _ _ _) as [e|bank]; [done|].
    intros [= <- _]. by exists bank.
Qed.

Lemma init_lmdb_constructed env prefix (K W c : nat) modes self env' :
  dist_rank env = 0 →
  init env prefix K W c modes "lmdb" true = (inr self, env') →
  ∃ bank old,
    load_lfb env prefix (as_tuple modes) cpu = inr bank ∧
    self = mkLFB prefix K W c (as_tuple modes) "lmdb" None
             (Some (map_fold
                      (λ key value store, <[encode key := torch_save value]> store)
                      old bank)).
Proof.
  intros Hrank. unfold init.
  destruct (bool_decide (prefix ∈ fs_paths env)); simpl; [|done].
  destruct (lmdb_imported env); simpl; [|done].
  rewrite Hrank. simpl. unfold load_lfb_on_lmdb, load_lfb.
  destruct (load_partitions _ _ _ _ _) as [e|bank]; [done|]. simpl.
  rewrite lookup_insert_eq. intros [= <- _]. by eexists _, _.
Qed.

(** C9. One environment, one set of arguments, one generator state: the
    instances built for 'gpu', 'cpu' and 'lmdb' (the store built by this
    construction) answer a query for a video id of the bank with the same
    outcome, block and generator state alike. Only where the record is kept
    differs. *)
Theorem backends_sample_alike env prefix (K W c : nat) modes
    self_gpu self_cpu self_lmdb env_gpu env_cpu env_lmdb
    video_id rec timestamp st :
  dist_rank env = 0 →
  init env prefix K W c modes "gpu" true = (inr self_gpu, env_gpu) →
  init env prefix K W c modes "cpu" true = (inr self_cpu, env_cpu) →
  init env prefix K W c modes "lmdb" true = (inr self_lmdb, env_lmdb) →
  video_features_of self_cpu video_id = inr rec →
  sample_long_term_features self_gpu video_id timestamp st
  = sample_long_term_features self_cpu video_id timestamp st ∧
  sample_long_term_features self_lmdb video_id timestamp st
  = sample_long_term_features self_cpu video_id timestamp st.
Proof.
  intros Hrank Hgpu Hcpu Hlmdb Hrec.
  apply (init_in_memory _ _ _ _ _ _ _ _ _ _ (cuda (dist_rank env))) in Hgpu
    as (bank_gpu & Hload_gpu & ->); [|by left].
  apply (init_in_memory _ _ _ _ _ _ _ _ _ _ cpu) in Hcpu
    as (bank_cpu & Hload_cpu & ->); [|by right].
  apply init_lmdb_constructed in Hlmdb
    as (bank & old & Hload & ->); [|done].
  rewrite Hload_cpu in Hload. simplify_eq.
  unfold video_features_of in Hrec. simpl in Hrec.
  destruct (bank !! video_id) as [rec'|] eqn:Hvid; simplify_eq.
  pose proof (load_partitions_relocate _ _ _ (cuda (dist_rank env)) _ _ _
                Hload_cpu) as Hrel.
  unfold relocate at 1 in Hrel. rewrite fmap_empty in Hrel.
  unfold load_lfb in Hload_gpu. rewrite Hrel in Hload_gpu. simplify_eq.
  set (d := cuda (dist_rank env)).
  rewrite (sample_resolved
             (mkLFB prefix K W c (as_tuple modes) "cpu" (Some bank) None)
             video_id timestamp rec st).
  2:{ unfold video_features_of. simpl. by rewrite Hvid. }
  rewrite (sample_resolved (mkLFB prefix K W c (as_tuple modes) "gpu" _ None)
             video_id timestamp (relocate_rec d rec) st).
  2:{ unfold video_features_of, relocate. simpl. by rewrite lookup_fmap, Hvid. }
  rewrite (sample_resolved (mkLFB prefix K W c (as_tuple modes) "lmdb" None _)
             video_id timestamp rec st).
  2:{ unfold video_features_of. simpl.
      by rewrite (lmdb_written_lookup _ _ _ rec). }
  split; [apply sample_window_relocate|done].
Qed.

(** An id absent from the in-memory bank: [self.lfb[video_id]] raises
    KeyError. *)
Lemma absent_in_memory self video_id timestamp st bank :
  device self ≠ "lmdb" → lfb self = Some bank → bank !! video_id = None →
  sample_long_term_features self video_id timestamp st = (inl KeyError, st).
Proof.
  intros Hdev Hbank Hvid.
  unfold sample_long_term_features, bind, lift, video_features_of.
  by rewrite bool_decide_eq_false_2, Hbank, Hvid.
Qed.

(** An id absent from the lmdb store: [txn.get] returns None, and the
    exception is the EOFError of unpickling the empty buffer. *)
Lemma absent_in_lmdb self video_id timestamp st txn :
  device self = "lmdb" → lmdb_env self = Some txn →
  txn !! encode video_id = None →
  sample_long_term_features self video_id timestamp st = (inl EOFError, st).
Proof.
  intros Hdev Htxn Hvid.
  unfold sample_long_term_features, bind, lift, video_features_of.
  by rewrite bool_decide_eq_true_2, Htxn, Hvid.
Qed.

End Backends.

(** C6 at the failing input. The bank of [Scenario.env0] has no video id
    "nope". Built on the cpu, the query raises KeyError, a LookupError;
    built on lmdb, the same query raises EOFError, which is none: neither
    returns a block. *)
Theorem absent_entity_lmdb_raises_EOFError :
  Scenario.bank_train !! "nope" = None ∧
  Scenario.bank_val !! "nope" = None ∧
  (∃ self env', Scenario.construct "cpu" = (inr self, env') ∧
     (sample_long_term_features self "nope" 11 Scenario.rng0).1 = inl KeyError) ∧
  (∃ self env', Scenario.construct "lmdb" = (inr self, env') ∧
     (sample_long_term_features self "nope" 11 Scenario.rng0).1 = inl EOFError) ∧
  is_LookupError KeyError = true ∧
  is_LookupError EOFError = false.
Proof.
  split; [done|]. split; [done|]. split; [|split].
  - eexists _, _. split; [reflexivity|]. by vm_compute.
  - eexists _, _. split; [reflexivity|]. by vm_compute.
  - done.
Qed.

(* ===================================================================== *)
(** ** The theorems at the concrete bank *)
(* ===================================================================== *)

Section Witnesses.
Import Scenario.

Lemma rec_vid42_resolved :
  video_features_of (built "cpu") "vid42" = inr rec_vid42.
Proof. vm_compute. reflexivity. Defined.

Lemma rec_vid42_channels : record_channels (lfb_channels (built "cpu")) rec_vid42.
Proof. apply (bool_decide_unpack _). vm_compute. exact I. Defined.

(** The documented scenario: window 4, two slots, three channels,
    timestamp 11, seconds 9 to 12. From the state [rng0] the draw at second
    10 returns the indices 1, 0: the second feature fills row 2, the first
    row 3. *)
Lemma sample_long_term_features_window_witness :
  video_features_of (built "cpu") "vid42" = inr rec_vid42 ∧
  record_channels 3 rec_vid42 ∧
  ∃ blk st',
    sample_long_term_features (built "cpu") "vid42" 11 rng0 = (inr blk, st') ∧
    has_shape 8 3 blk ∧
    b_rows blk !! 2 = Some [2; 2; 2]%Z ∧ b_rows blk !! 3 = Some [1; 1; 1]%Z.
Proof.
  split; [exact rec_vid42_resolved|]. split; [exact rec_vid42_channels|].
  destruct (sample_long_term_features_window (built "cpu") "vid42" 11
              rec_vid42 rng0 rec_vid42_resolved rec_vid42_channels)
    as (blk & sts & Hst & Hrun & Hshape & Hseg).
  exists blk, (sts 4). split; [exact Hrun|]. split; [exact Hshape|].
  pose proof (Hseg 0 ltac:(vm_compute; lia)) as [Hsame _].
  pose proof (Hseg 1 ltac:(vm_compute; lia)) as (idxs & Hdraw & _ & _ & Hin & _).
  rewrite Hsame, Hst in Hdraw. apply (f_equal fst) in Hdraw.
  vm_compute in Hdraw. injection Hdraw as <-.
  destruct (Hin 0 1 eq_refl) as (v & [= <-] & Hrow2).
  destruct (Hin 1 0 eq_refl) as (v & [= <-] & Hrow3).
  split; [exact Hrow2 | exact Hrow3].
Defined.

Lemma rec_vid42_far sec :
  (100 - Z.of_nat (window_size (built "cpu") / 2) ≤ sec
   < 100 - Z.of_nat (window_size (built "cpu") / 2)
     + Z.of_nat (window_size (built "cpu")))%Z →
  rec_vid42 !! sec = None ∨ rec_vid42 !! sec = Some [].
Proof.
  intros Hsec. left. change (98 ≤ sec < 102)%Z in Hsec.
  assert (sec = 98%Z ∨ sec = 99%Z ∨ sec = 100%Z ∨ sec = 101%Z) as Hcases.
  { lia. }
  destruct Hcases as [-> | [-> | [-> | ->]]]; reflexivity.
Defined.

Lemma sample_long_term_features_zero_fill_witness :
  ∃ blk,
    sample_long_term_features (built "cpu") "vid42" 100 rng0 = (inr blk, rng0) ∧
    b_shape blk = (8, 3) ∧
    b_rows blk = replicate 8 [0; 0; 0]%Z.
Proof.
  exact (sample_long_term_features_zero_fill (built "cpu") "vid42" 100
           rec_vid42 rng0 rec_vid42_resolved rec_vid42_far).
Defined.

Lemma nonzero_rows_per_second_witness :
  ∃ blk st',
    sample_long_term_features (built "cpu") "vid42" 11 rng0 = (inr blk, st') ∧
    nonzero_rows (segment 2 1 blk) = 2 ∧ nonzero_rows (segment 2 2 blk) = 1.
Proof.
  destruct (nonzero_rows_per_second (built "cpu") "vid42" 11 rec_vid42 rng0
              rec_vid42_resolved rec_vid42_channels)
    as (blk & st' & Hrun & Hseg).
  exists blk, st'. split; [exact Hrun|]. split.
  - refine (proj2 (Hseg 1 [vec [1; 1; 1]; vec [2; 2; 2]]%Z _ _) _).
    + vm_compute. lia.
    + reflexivity.
    + apply (bool_decide_unpack _). vm_compute. exact I.
  - refine (proj2 (Hseg 2 [vec [9; 9; 9]]%Z _ _) _).
    + vm_compute. lia.
    + reflexivity.
    + apply (bool_decide_unpack _). vm_compute. exact I.
Defined.

(** A bank in double precision, queried with two tensors alive: the block
    is a third tensor, and it holds 2^24 + 1 rounded to float32. *)
Lemma sample_long_term_features_float32_witness :
  video_features_of Scenario2.store_double "d" = inr Scenario2.rec_double ∧
  record_channels 3 Scenario2.rec_double ∧
  ∃ (a : nat) blk st',
    InPlace.sample_long_term_features Scenario2.store_double "d" 10
                                      Scenario2.heap0 rng0
    = (inr a, <[a := blk]> Scenario2.heap0, st') ∧
    Scenario2.heap0 !! a = None ∧
    b_dtype blk = float32 ∧ b_device blk = cpu ∧
    b_rows blk !! 0 = Some [16777216; 3; -16777220]%Z.
Proof.
  assert (video_features_of Scenario2.store_double "d"
          = inr Scenario2.rec_double) as Hres by (vm_compute; reflexivity).
  assert (record_channels 3 Scenario2.rec_double) as Hrec.
  { apply (bool_decide_unpack _). vm_compute. exact I. }
  split; [exact Hres|]. split; [exact Hrec|].
  destruct (sample_long_term_features_float32 Scenario2.store_double "d" 10
              Scenario2.rec_double Scenario2.heap0 rng0 Hres Hrec)
    as (a & blk & st' & Hat & Hfresh & _ & Hd & Hdev & Hrows).
  exists a, blk, st'. split; [exact Hat|]. split; [exact Hfresh|].
  split; [exact Hd|]. split; [exact Hdev|].
  destruct (Hrows 0 [mkTensor1 float64 cpu [16777217; 3; -16777219]%Z]
              ltac:(vm_compute; lia) eq_refl) as (idxs & Hn & _ & Hin).
  destruct idxs as [|j idxs]; [discriminate Hn|].
  destruct (Hin 0 j eq_refl) as (v & Hv & Hrow & _).
  destruct j as [|j]; [|discriminate Hv].
  injection Hv as <-. exact Hrow.
Defined.

(** Partitions train then val, both defining "x": val's record stays. *)
Lemma load_lfb_last_partition_wins_witness :
  ∃ bank,
    load_lfb env0 "/data" ["train"; "val"] cpu = inr bank ∧
    is_Some (bank_train !! "x") ∧ bank_val !! "x" = Some rec_val_x ∧
    bank !! "x" = Some rec_val_x.
Proof.
  exists (lfb_bank (built "cpu")).
  assert (load_lfb env0 "/data" ["train"; "val"] cpu
          = inr (lfb_bank (built "cpu"))) as Hload by (vm_compute; reflexivity).
  split; [exact Hload|].
  assert (is_Some (bank_train !! "x")) as HA by (eexists; reflexivity).
  split; [exact HA|]. split; [reflexivity|].
  apply (proj2 (proj2 (load_lfb_last_partition_wins env0 "/data"
                         ["train"; "val"] cpu _ Hload))
           "train" "val" bank_train bank_val "x" rec_val_x);
    [reflexivity | vm_compute; reflexivity | vm_compute; reflexivity
    | exact HA | reflexivity].
Defined.

Lemma init_errors_witness :
  init env_bare "/data" 5 60 2048 (ModesTuple ["train"; "val"]) "gpu" true
  = (inl ValueError, env_bare) ∧
  init env0 "/data" 5 60 2048 (ModesTuple ["train"; "val"]) "tpu" true
  = (inl ValueError, env0) ∧
  init env_no_lmdb "/data" 5 60 2048 (ModesTuple ["train"; "val"]) "lmdb" true
  = (inl AssertionError, env_no_lmdb).
Proof.
  split; [|split].
  - apply (proj1 (init_errors env_bare "/data" 5 60 2048
                    (ModesTuple ["train"; "val"]) "gpu" true)).
    apply (bool_decide_unpack _). vm_compute. exact I.
  - apply (proj1 (proj2 (init_errors env0 "/data" 5 60 2048
                           (ModesTuple ["train"; "val"]) "tpu" true)));
      discriminate.
  - apply (proj2 (proj2 (init_errors env_no_lmdb "/data" 5 60 2048
                           (ModesTuple ["train"; "val"]) "lmdb" true)));
      [|reflexivity|reflexivity].
    apply (bool_decide_unpack _). vm_compute. exact I.
Defined.

Lemma getitem_combined_key_witness :
  getitem (built "cpu") "vid42,905" rng0
  = sample_long_term_features (built "cpu") "vid42" 905 rng0 ∧
  getitem (built "cpu") "vid42" rng0 = (inl ValueError, rng0) ∧
  getitem (built "cpu") "vid42,9.5" rng0 = (inl ValueError, rng0).
Proof.
  split; [|split].
  - apply (proj1 (getitem_combined_key (built "cpu")) "vid42" "905" 905%Z rng0);
      reflexivity.
  - apply (proj1 (proj2 (getitem_combined_key (built "cpu"))) "vid42" rng0).
    simpl. lia.
  - apply (proj2 (proj2 (getitem_combined_key (built "cpu"))) "vid42" "9.5" rng0);
      reflexivity.
Defined.

Lemma backends_sample_alike_witness :
  sample_long_term_features (built "gpu") "vid42" 11 rng0
  = sample_long_term_features (built "cpu") "vid42" 11 rng0 ∧
  sample_long_term_features (built "lmdb") "vid42" 11 rng0
  = sample_long_term_features (built "cpu") "vid42" 11 rng0.
Proof.
  apply (backends_sample_alike env0 "/data" 2 4 3
           (ModesTuple ["train"; "val"])
           (built "gpu") (built "cpu") (built "lmdb")
           (construct "gpu").2 (construct "cpu").2 (construct "lmdb").2
           "vid42" rec_vid42 11 rng0);
    [reflexivity | vm_compute; reflexivity .. ].
Defined.

End Witnesses.

(* ===================================================================== *)
(** ** Further properties: loading and construction *)
(* ===================================================================== *)

Section MoreLoading.
Context {V : Type}.
Implicit Types (env : @Env V) (self : @LFB V)
  (bank acc part : gmap string (gmap Z (list (@Tensor1 V)))).

Lemma load_partitions_app env prefix d ms1 ms2 acc :
  load_partitions env prefix d (ms1 ++ ms2) acc
  = match load_partitions env prefix d ms1 acc with
    | inl e => inl e
    | inr bank => load_partitions env prefix d ms2 bank
    end.
Proof.
  revert acc. induction ms1 as [|m ms1 IH]; intros acc; [done|].
  cbn [app load_partitions].
  destruct (torch_load env (lfb_path prefix m) d); [done|]. apply IH.
Qed.

Lemma load_partitions_acc env prefix d modes acc :
  load_partitions env prefix d modes acc
  = match load_partitions env prefix d modes ∅ with
    | inl e => inl e
    | inr bank => inr (bank ∪ acc)
    end.
Proof.
  revert acc. induction modes as [|m modes IH]; intros acc.
  { cbn [load_partitions]. by rewrite (left_id_L ∅ (∪)). }
  cbn [load_partitions].
  destruct (torch_load env (lfb_path prefix m) d) as [e|part]; [done|].
  rewrite (IH (dict_update acc part)), (IH (dict_update ∅ part)).
  destruct (load_partitions env prefix d modes ∅) as [e|bank]; [done|].
  unfold dict_update. f_equal.
  by rewrite (right_id_L ∅ (∪)), (assoc_L (∪)).
Qed.

(** X1. Loading the sequence [ms1 ++ ms2] is loading [ms1], loading [ms2] and
    updating the first bank with the second. *)
Theorem load_lfb_app env prefix ms1 ms2 map_location bank1 bank2 :
  load_lfb env prefix ms1 map_location = inr bank1 →
  load_lfb env prefix ms2 map_location = inr bank2 →
  load_lfb env prefix (ms1 ++ ms2) map_location
  = inr (dict_update bank1 bank2).
Proof.
  unfold load_lfb. intros H1 H2.
  by rewrite load_partitions_app, H1, load_partitions_acc, H2.
Qed.

(** X2. When two runs of partitions define no video id in common, the order in
    which the runs are listed does not show in the bank. *)
Theorem load_lfb_disjoint_comm env prefix ms1 ms2 map_location bank1 bank2 :
  load_lfb env prefix ms1 map_location = inr bank1 →
  load_lfb env prefix ms2 map_location = inr bank2 →
  (∀ video_id, is_Some (bank1 !! video_id) → bank2 !! video_id = None) →
  load_lfb env prefix (ms1 ++ ms2) map_location
  = load_lfb env prefix (ms2 ++ ms1) map_location.
Proof.
  intros H1 H2 Hdisj.
  rewrite (load_lfb_app _ _ _ _ _ _ _ H1 H2), (load_lfb_app _ _ _ _ _ _ _ H2 H1).
  unfold dict_update. f_equal. apply map_union_comm.
  apply map_disjoint_spec. intros video_id rec2 rec1 Hb2 Hb1.
  rewrite Hdisj in Hb2 by eauto. done.
Qed.




Lemma relocate_on d bank : bank_on d (relocate d bank).
Proof.
  intros video_id rec sec feats v Hrec Hsec Hv.
  unfold relocate in Hrec. rewrite lookup_fmap in Hrec.
  destruct (bank !! video_id) as [rec0|]; simplify_eq/=.
  unfold relocate_rec in Hsec. rewrite lookup_fmap in Hsec.
  destruct (rec0 !! sec) as [feats0|]; simplify_eq/=.
  apply list_elem_of_fmap in Hv as (v0 & -> & _). done.
Qed.

Lemma load_partitions_on env prefix d modes acc bank :
  bank_on d acc →
  load_partitions env prefix d modes acc = inr bank → bank_on d bank.
Proof.
  revert acc. induction modes as [|m modes IH]; intros acc Hacc Hload.
  { by simplify_eq/=. }
  cbn [load_partitions] in Hload. unfold torch_load in Hload.
  destruct (fs_pkl env !! lfb_path prefix m) as [raw|]; [|done].
  apply (IH (dict_update acc (relocate d raw))); [|exact Hload].
  intros video_id rec sec feats v Hrec. unfold dict_update in Hrec.
  apply lookup_union_Some_raw in Hrec as [Hrec | [_ Hrec]].
  - by apply (relocate_on d raw video_id rec).
  - by apply (Hacc video_id rec).
Qed.

(** X4. [map_location]: every tensor of the bank of a 'gpu' instance is on
    cuda:rank, and every tensor of the bank of a 'cpu' instance on the cpu,
    wherever the partition files had them. *)
Theorem init_bank_device env prefix (K W c : nat) modes (device : string)
    construct self env' :
  device = "gpu" ∨ device = "cpu" →
  init env prefix K W c modes device construct = (inr self, env') →
  ∃ bank,
    lfb self = Some bank ∧
    bank_on (if bool_decide (device = "gpu") then cuda (dist_rank env) else cpu)
            bank.
Proof.
  intros Hdev Hinit.
  destruct Hdev as [-> | ->]; simpl.
  - apply (init_in_memory _ _ _ _ _ _ _ _ _ _ (cuda (dist_rank env)))
      in Hinit as (bank & Hload & ->); [|by left].
    exists bank. split; [done|].
    eapply load_partitions_on; [|exact Hload]. intros ? ? ? ? ? Hno.
    by rewrite lookup_empty in Hno.
  - apply (init_in_memory _ _ _ _ _ _ _ _ _ _ cpu) in Hinit
      as (bank & Hload & ->); [|by right].
    exists bank. split; [done|].
    eapply load_partitions_on; [|exact Hload]. intros ? ? ? ? ? Hno.
    by rewrite lookup_empty in Hno.
Qed.

Lemma load_partitions_ids env prefix d modes acc bank :
  load_partitions env prefix d modes acc = inr bank →
  ∀ video_id,
    is_Some (bank !! video_id) ↔
    is_Some (acc !! video_id) ∨
    ∃ m part, m ∈ modes ∧ torch_load env (lfb_path prefix m) d = inr part ∧
              is_Some (part !! video_id).
Proof.
  revert acc. induction modes as [|m modes IH]; intros acc Hload video_id.
  { simplify_eq/=. split; [by left|]. intros [?|(m & part & Hm & _)]; [done|].
    by apply elem_of_nil in Hm. }
  cbn [load_partitions] in Hload.
  destruct (torch_load env (lfb_path prefix m) d) as [e|part] eqn:Hm; [done|].
  rewrite (IH _ Hload). unfold dict_update. rewrite lookup_union_is_Some.
  split.
  - intros [[Hp|Ha]|(m' & part' & Hin & Hm' & Hx)].
    + right. exists m, part. split; [left|done].
    + by left.
    + right. exists m', part'. split; [by right|done].
  - intros [Ha|(m' & part' & Hin & Hm' & Hx)]; [by left; right|].
    apply elem_of_cons in Hin as [->|Hin].
    + rewrite Hm in Hm'. simplify_eq. by left; left.
    + right. by exists m', part'.
Qed.

(** X5. [__len__] of a 'gpu' or 'cpu' instance is the number of video ids of
    its bank, and the ids of the bank are exactly those that some partition
    of [dataset_modes] defines: an id defined by several partitions counts
    once. *)
Theorem len_in_memory env prefix (K W c : nat) modes (device : string)
    construct self env' :
  device = "gpu" ∨ device = "cpu" →
  init env prefix K W c modes device construct = (inr self, env') →
  ∃ bank,
    lfb self = Some bank ∧ len self = inr (size (dom bank)) ∧
    ∀ video_id,
      video_id ∈ dom bank ↔
      ∃ m raw, m ∈ as_tuple modes ∧
               fs_pkl env !! lfb_path prefix m = Some raw ∧
               video_id ∈ dom raw.
Proof.
  intros Hdev Hinit.
  assert (∃ d bank, load_lfb env prefix (as_tuple modes) d = inr bank ∧
            self = mkLFB prefix K W c (as_tuple modes) device (Some bank) None)
    as (d & bank & Hload & ->).
  { destruct Hdev as [-> | ->].
    - exists (cuda (dist_rank env)).
      apply (init_in_memory _ _ _ _ _ _ _ _ _ _ _ ltac:(by left) Hinit).
    - exists cpu.
      apply (init_in_memory _ _ _ _ _ _ _ _ _ _ _ ltac:(by right) Hinit). }
  exists bank. split; [done|]. split.
  { unfold len. simpl. by rewrite size_dom. }
  intros video_id. rewrite elem_of_dom.
  rewrite (load_partitions_ids _ _ _ _ _ _ Hload video_id).
  rewrite lookup_empty. split.
  - intros [[? Hno]|(m & part & Hin & Hm & Hx)]; [done|].
    unfold torch_load in Hm.
    destruct (fs_pkl env !! lfb_path prefix m) as [raw|] eqn:Hraw; [|done].
    simplify_eq. exists m, raw. split; [done|]. split; [done|].
    apply elem_of_dom. unfold relocate in Hx.
    rewrite lookup_fmap in Hx. by apply fmap_is_Some in Hx.
  - intros (m & raw & Hin & Hraw & Hx). right.
    exists m, (relocate d raw). split; [done|].
    unfold torch_load. rewrite Hraw. split; [done|].
    unfold relocate. rewrite lookup_fmap. apply fmap_is_Some.
    by apply elem_of_dom.
Qed.

Lemma init_lmdb_inv env prefix (K W c : nat) modes construct self env' :
  init env prefix K W c modes "lmdb" construct = (inr self, env') →
  ∃ store,
    self = mkLFB prefix K W c (as_tuple modes) "lmdb" None (Some store) ∧
    fs_lmdb env' !! path_join prefix "lmdb" = Some store.
Proof.
  unfold init.
  destruct (bool_decide (prefix ∈ fs_paths env)); simpl; [|done].
  destruct (lmdb_imported env); simpl; [|done].
  set (constructed := if (dist_rank env =? 0) && construct then _ else _).
  destruct constructed as [e|env1]; [done|].
  destruct (fs_lmdb env1 !! path_join prefix "lmdb") as [store|] eqn:Hs;
    [|done].
  intros [= <- <-]. by exists store.
Qed.

(** X6. [__len__] of an 'lmdb' instance raises AttributeError: [load_lfb] is
    the only place that assigns [self.lfb], and the lmdb branch of the
    constructor never calls it. *)
Theorem len_lmdb env prefix (K W c : nat) modes construct self env' :
  init env prefix K W c modes "lmdb" construct = (inr self, env') →
  len self = inl AttributeError.
Proof. intros (store & -> & _)%init_lmdb_inv. done. Qed.

End MoreLoading.

(* ===================================================================== *)
(** ** Further properties: the lmdb store *)
(* ===================================================================== *)

Section MoreBackends.
Context {V : Type} `{!Scalar V}.
Implicit Types (env : @Env V) (self : @LFB V)
  (bank : gmap string (gmap Z (list (@Tensor1 V))))
  (rec : gmap Z (list (@Tensor1 V))) (old : gmap string (@pickled V)).

Lemma lmdb_written_other bank old (k : string) :
  (∀ video_id, is_Some (bank !! video_id) → encode video_id ≠ k) →
  map_fold (λ key value store, <[encode key := torch_save value]> store)
           old bank !! k
  = old !! k.
Proof.
  apply (map_fold_weak_ind
           (λ store (m : gmap string (gmap Z (list (@Tensor1 V)))),
              (∀ video_id, is_Some (m !! video_id) → encode video_id ≠ k) →
              store !! k = old !! k)).
  - done.
  - intros key value m store Hkey IH Hne.
    rewrite lookup_insert_ne.
    + apply IH. intros video_id Hin. apply Hne.
      rewrite lookup_insert_ne; [done|]. intros ->.
      rewrite Hkey in Hin. by destruct Hin.
    + apply Hne. rewrite lookup_insert_eq. by eexists.
Qed.

(** X7. [load_lfb_on_lmdb] writes the merged bank into the store at [path] and
    nothing else: every video id of the bank is read back under its encoded
    key as the record put; a key that encodes no id of the bank keeps what
    the store held before (nothing is deleted); the other stores and the
    partition files are as before. *)
Theorem load_lfb_on_lmdb_store env prefix modes path env' :
  load_lfb_on_lmdb env prefix modes path = inr env' →
  ∃ bank written,
    load_lfb env prefix modes cpu = inr bank ∧
    fs_lmdb env' !! path = Some written ∧
    (∀ video_id rec, bank !! video_id = Some rec →
       torch_load_buffer (written !! encode video_id) = inr rec) ∧
    (∀ k, (∀ video_id, is_Some (bank !! video_id) → encode video_id ≠ k) →
       written !! k = default ∅ (fs_lmdb env !! path) !! k) ∧
    (∀ other, other ≠ path → fs_lmdb env' !! other = fs_lmdb env !! other) ∧
    fs_pkl env' = fs_pkl env.
Proof.
  unfold load_lfb_on_lmdb, load_lfb.
  destruct (load_partitions env prefix cpu modes ∅) as [e|bank]; [done|].
  intros [= <-]. simpl. eexists bank, _. split; [done|].
  rewrite lookup_insert_eq. split; [done|]. split; [|split; [|split]].
  - intros video_id rec Hrec. by rewrite (lmdb_written_lookup _ _ _ rec).
  - intros k Hk. by apply lmdb_written_other.
  - intros other Hne. by rewrite lookup_insert_ne.
  - done.
Qed.

Lemma lmdb_rewritten bank (written : gmap string (@pickled V)) :
  (∀ video_id rec, bank !! video_id = Some rec →
     written !! encode video_id = Some (Pickle rec)) →
  map_fold (λ key value store, <[encode key := torch_save value]> store)
           written bank
  = written.
Proof.
  apply (map_fold_weak_ind
           (λ store (m : gmap string (gmap Z (list (@Tensor1 V)))),
              (∀ video_id rec, m !! video_id = Some rec →
                 written !! encode video_id = Some (Pickle rec)) →
              store = written)).
  - done.
  - intros key value m store Hkey IH Hheld.
    rewrite IH.
    + apply insert_id, Hheld, lookup_insert_eq.
    + intros video_id rec Hrec. apply Hheld.
      rewrite lookup_insert_ne; [done|]. intros ->. by rewrite Hkey in Hrec.
Qed.

Lemma init_lmdb_built env prefix (K W c : nat) modes self env' :
  dist_rank env = 0 →
  init env prefix K W c modes "lmdb" true = (inr self, env') →
  ∃ bank,
    load_lfb env prefix (as_tuple modes) cpu = inr bank ∧
    prefix ∈ fs_paths env ∧ lmdb_imported env = true ∧
    let path := path_join prefix "lmdb" in
    let written :=
      map_fold (λ key value store, <[encode key := torch_save value]> store)
               (default ∅ (fs_lmdb env !! path)) bank in
    self = mkLFB prefix K W c (as_tuple modes) "lmdb" None (Some written) ∧
    env' = {| fs_paths := {[path]} ∪ fs_paths env;
              fs_pkl := fs_pkl env;
              fs_lmdb := <[path := written]> (fs_lmdb env);
              lmdb_imported := lmdb_imported env;
              dist_rank := dist_rank env;
              dist_world_size := dist_world_size env |}.
Proof.
  intros Hrank. unfold init.
  destruct (bool_decide_reflect (prefix ∈ fs_paths env)) as [Hp|Hp]; simpl;
    [|done].
  destruct (lmdb_imported env) eqn:Hlmdb; simpl; [|done].
  rewrite Hrank. simpl. unfold load_lfb_on_lmdb, load_lfb.
  destruct (load_partitions _ _ _ _ _) as [e|bank]; [done|]. simpl.
  rewrite lookup_insert_eq. intros [= <- <-]. exists bank.
  split; [reflexivity|]. split; [exact Hp|]. split; [reflexivity|].
  cbv zeta. split; [reflexivity|]. f_equal; auto.
Qed.

(** In the model, where opening a store never fails, constructing again in
    the environment a construction left gives the same instance and the
    same environment. *)
Lemma init_lmdb_again env prefix (K W c : nat) modes self env' :
  dist_rank env = 0 →
  init env prefix K W c modes "lmdb" true = (inr self, env') →
  init env' prefix K W c modes "lmdb" false = (inr self, env') ∧
  init env' prefix K W c modes "lmdb" true = (inr self, env').
Proof.
  intros Hrank Hinit.
  destruct (init_lmdb_built _ _ _ _ _ _ _ _ Hrank Hinit)
    as (bank & Hload & Hpath & Hlmdb & Hself & Henv).
  simpl in Hself, Henv.
  set (path := path_join prefix "lmdb") in *.
  set (written := map_fold _ _ bank) in *.
  assert (prefix ∈ fs_paths env') as Hpath'.
  { rewrite Henv. simpl. set_solver. }
  assert (fs_lmdb env' !! path = Some written) as Hstore.
  { rewrite Henv. simpl. apply lookup_insert_eq. }
  assert (lmdb_imported env' = true) as Hlmdb' by (by rewrite Henv).
  assert (dist_rank env' = 0) as Hrank' by (by rewrite Henv).
  split.
  - unfold init. rewrite bool_decide_eq_true_2 by done. simpl.
    rewrite Hlmdb', Hrank'. simpl. fold path. by rewrite Hstore, Hself.
  - unfold init. rewrite bool_decide_eq_true_2 by done. simpl.
    rewrite Hlmdb', Hrank'. simpl. fold path.
    unfold load_lfb_on_lmdb.
    assert (load_partitions env' prefix cpu (as_tuple modes) ∅ = inr bank)
      as ->.
    { rewrite <- Hload. unfold load_lfb. clear -Henv. generalize (∅ : gmap string (gmap Z (list (@Tensor1 V)))).
      induction (as_tuple modes) as [|m ms IH]; intros acc; [done|].
      cbn [load_partitions]. unfold torch_load. rewrite Henv at 1. simpl.
      destruct (fs_pkl env !! lfb_path prefix m); [|done]. apply IH. }
    rewrite Hstore. simpl.
    assert (map_fold
              (λ key value store, <[encode key := torch_save value]> store)
              written bank = written) as ->.
    { apply (lmdb_rewritten bank written). intros video_id rec Hrec.
      subst written. by apply lmdb_written_lookup. }
    rewrite lookup_insert_eq. rewrite Hself. f_equal.
    rewrite Henv at 2. rewrite Henv. simpl. f_equal.
    + by rewrite (assoc_L (∪)), (idemp_L (∪)).
    + by rewrite insert_insert_eq.
Qed.

(** X8. A store built by one construction is what the next one finds: after
    [LFB(..., device='lmdb', construct_lmdb=True)], whenever a construction
    with [construct_lmdb=False] in the environment left behind returns an
    instance, it is the same instance (same arguments, same store) and the
    environment is as it was; and whenever a construction with
    [construct_lmdb=True] there returns an instance, it is again the same
    instance and the same environment: every record is put where it already
    is. *)
Theorem init_lmdb_reuse env prefix (K W c : nat) modes self env' :
  dist_rank env = 0 →
  init env prefix K W c modes "lmdb" true = (inr self, env') →
  ∀ construct self2 env2,
    init env' prefix K W c modes "lmdb" construct = (inr self2, env2) →
    self2 = self ∧ env2 = env'.
Proof.
  intros Hrank Hinit construct self2 env2.
  destruct (init_lmdb_again _ _ _ _ _ _ _ _ Hrank Hinit) as [Hfalse Htrue].
  destruct construct; [rewrite Htrue | rewrite Hfalse]; by intros [= <- <-].
Qed.

Lemma no_partition_defines env prefix d modes bank video_id :
  load_lfb env prefix modes d = inr bank →
  (∀ m raw, m ∈ modes → fs_pkl env !! lfb_path prefix m = Some raw →
            raw !! video_id = None) →
  bank !! video_id = None.
Proof.
  unfold load_lfb. intros Hload Hnone.
  apply eq_None_not_Some.
  rewrite (load_partitions_ids _ _ _ _ _ _ Hload video_id), lookup_empty.
  intros [[? ?]|(m & part & Hin & Hm & Hx)]; [done|].
  unfold torch_load in Hm.
  destruct (fs_pkl env !! lfb_path prefix m) as [raw|] eqn:Hraw; [|done].
  simplify_eq. unfold relocate in Hx.
  rewrite lookup_fmap, (Hnone m raw Hin Hraw) in Hx. by destruct Hx.
Qed.

(** X10. A video id that no partition of [dataset_modes] defines, queried on an
    instance built on 'gpu' or 'cpu': KeyError for every timestamp, raised
    before anything is drawn (the generator is left as it was). *)
Theorem absent_id_in_memory env prefix (K W c : nat) modes (device : string)
    construct self env' video_id timestamp st :
  device = "gpu" ∨ device = "cpu" →
  init env prefix K W c modes device construct = (inr self, env') →
  (∀ m raw, m ∈ as_tuple modes →
     fs_pkl env !! lfb_path prefix m = Some raw → raw !! video_id = None) →
  sample_long_term_features self video_id timestamp st = (inl KeyError, st).
Proof.
  intros Hdev Hinit Hnone.
  assert (∃ d bank, load_lfb env prefix (as_tuple modes) d = inr bank ∧
            self = mkLFB prefix K W c (as_tuple modes) device (Some bank) None)
    as (d & bank & Hload & ->).
  { destruct Hdev as [-> | ->].
    - exists (cuda (dist_rank env)).
      apply (init_in_memory _ _ _ _ _ _ _ _ _ _ _ ltac:(by left) Hinit).
    - exists cpu.
      apply (init_in_memory _ _ _ _ _ _ _ _ _ _ _ ltac:(by right) Hinit). }
  apply (absent_in_memory _ _ _ _ bank); simpl.
  - by destruct Hdev as [-> | ->].
  - done.
  - by eapply no_partition_defines.
Qed.

(** X11. A video id that no partition defines and whose encoding is a key
    lmdb accepts (not empty, at most 511 bytes), queried on an instance
    that built its lmdb store from scratch: [txn.get] finds nothing and the
    query raises the unpickler's EOFError, for every timestamp, the
    generator left as it was. *)
Theorem absent_id_lmdb_fresh env prefix (K W c : nat) modes self env'
    video_id timestamp st :
  dist_rank env = 0 →
  fs_lmdb env !! path_join prefix "lmdb" = None →
  init env prefix K W c modes "lmdb" true = (inr self, env') →
  (∀ m raw, m ∈ as_tuple modes →
     fs_pkl env !! lfb_path prefix m = Some raw → raw !! video_id = None) →
  0 < Strings.String.length (encode video_id) ≤ max_key_size →
  sample_long_term_features self video_id timestamp st = (inl EOFError, st).
Proof.
  intros Hrank Hfresh Hinit Hnone _.
  destruct (init_lmdb_built _ _ _ _ _ _ _ _ Hrank Hinit)
    as (bank & Hload & _ & _ & -> & _).
  eapply absent_in_lmdb; [done..|]. rewrite Hfresh. simpl.
  rewrite lmdb_written_other; [done|].
  intros other [rec Hother] Heq. apply encode_inj in Heq as ->.
  by rewrite (no_partition_defines _ _ _ _ _ _ Hload Hnone) in Hother.
Qed.

(** X12. Construction never deletes from the store: a record the store already
    held under the key of an id that no partition defines (any longer) is
    what the lmdb instance samples for that id, where an in-memory instance
    raises KeyError. *)
Theorem stale_record_served env prefix (K W c : nat) modes self env'
    old video_id rec timestamp st :
  dist_rank env = 0 →
  fs_lmdb env !! path_join prefix "lmdb" = Some old →
  old !! encode video_id = Some (Pickle rec) →
  init env prefix K W c modes "lmdb" true = (inr self, env') →
  (∀ m raw, m ∈ as_tuple modes →
     fs_pkl env !! lfb_path prefix m = Some raw → raw !! video_id = None) →
  sample_long_term_features self video_id timestamp st
  = sample_window rec W K c timestamp st.
Proof.
  intros Hrank Hold Hrec Hinit Hnone.
  destruct (init_lmdb_built _ _ _ _ _ _ _ _ Hrank Hinit)
    as (bank & Hload & _ & _ & -> & _).
  apply sample_resolved. unfold video_features_of. simpl.
  rewrite Hold. simpl. rewrite lmdb_written_other; [by rewrite Hrec|].
  intros other [rec' Hother] Heq. apply encode_inj in Heq as ->.
  by rewrite (no_partition_defines _ _ _ _ _ _ Hload Hnone) in Hother.
Qed.

(** With [construct_lmdb=False], or on a rank other than 0, the lmdb
    branch reads no partition file and writes nothing: it opens the store
    under the prefix if there is one, and raises lmdb's error if there is
    none. *)
Theorem init_lmdb_no_construct env prefix (K W c : nat) modes construct :
  prefix ∈ fs_paths env → lmdb_imported env = true →
  dist_rank env ≠ 0 ∨ construct = false →
  init env prefix K W c modes "lmdb" construct
  = match fs_lmdb env !! path_join prefix "lmdb" with
    | Some store =>
        (inr (mkLFB prefix K W c (as_tuple modes) "lmdb" None (Some store)),
         env)
    | None => (inl LmdbError, env)
    end.
Proof.
  intros Hpath Hlmdb Hgate. unfold init.
  rewrite bool_decide_eq_true_2 by done. simpl. rewrite Hlmdb. simpl.
  assert ((dist_rank env =? 0) && construct = false) as ->.
  { destruct Hgate as [Hrank | ->]; [|by rewrite andb_false_r].
    by apply Nat.eqb_neq in Hrank as ->. }
  done.
Qed.


End MoreBackends.

(* ===================================================================== *)
(** ** Further properties: the sampler *)
(* ===================================================================== *)

Lemma for_each_ext_in {A S} (f g : S → A → M S) xs acc st :
  (∀ acc x st, x ∈ xs → f acc x st = g acc x st) →
  for_each f xs acc st = for_each g xs acc st.
Proof.
  revert acc st. induction xs as [|x xs IH]; intros acc st Hfg; [done|].
  cbn [for_each]. unfold bind. rewrite Hfg by left.
  destruct (g acc x st) as [[e|acc'] st']; [done|].
  apply IH. intros acc0 y st0 Hy. apply Hfg. by right.
Qed.

Section MoreSampler.
Context {V : Type} `{!Scalar V}.
Implicit Types (self : @LFB V) (rec : gmap Z (list (@Tensor1 V)))
  (lt : @Tensor2 V) (feats : list (@Tensor1 V)).

(** X13. The block is a function of the seconds of the window alone: two
    records (of one or two instances with the same sizes) that agree on
    every second of [timestamp - W//2, timestamp - W//2 + W) give the same
    outcome from the same generator state. *)
Theorem sample_window_local self1 self2 video_id1 video_id2 rec1 rec2
    timestamp st :
  video_features_of self1 video_id1 = inr rec1 →
  video_features_of self2 video_id2 = inr rec2 →
  window_size self1 = window_size self2 →
  max_num_sampled_feat self1 = max_num_sampled_feat self2 →
  lfb_channels self1 = lfb_channels self2 →
  (∀ sec,
     (timestamp - Z.of_nat (window_size self1 / 2) ≤ sec
      < timestamp - Z.of_nat (window_size self1 / 2)
        + Z.of_nat (window_size self1))%Z →
     rec1 !! sec = rec2 !! sec) →
  sample_long_term_features self1 video_id1 timestamp st
  = sample_long_term_features self2 video_id2 timestamp st.
Proof.
  intros H1 H2 HW HK Hc Hagree.
  rewrite (sample_resolved _ _ _ rec1), (sample_resolved _ _ _ rec2) by done.
  rewrite <- HW, <- HK, <- Hc. unfold sample_window.
  set (start := (timestamp - Z.of_nat (window_size self1 / 2))%Z) in *.
  apply for_each_ext_in. intros acc [idx sec] st' Hin.
  rewrite enumerate_py_range in Hin.
  apply list_elem_of_fmap in Hin as (i & [= -> ->] & [_ Hi]%elem_of_seq).
  rewrite Hagree; [done|]. lia.
Qed.

Lemma for_each_fmap_ext {A B S} (f g : S → B → M S) (h1 h2 : A → B)
    (xs : list A) acc st :
  (∀ acc x st, f acc (h1 x) st = g acc (h2 x) st) →
  for_each f (h1 <$> xs) acc st = for_each g (h2 <$> xs) acc st.
Proof.
  intros Hfg. revert acc st. induction xs as [|x xs IH]; intros acc st; [done|].
  cbn [fmap list_fmap for_each]. unfold bind. rewrite Hfg.
  destruct (g acc (h2 x) st) as [[e|acc'] st']; [done|]. apply IH.
Qed.

#[local] Instance Z_shift_inj (d : Z) : Inj (=) (=) (λ sec : Z, (sec + d)%Z).
Proof. intros a b ?. lia. Qed.

(** X14. Only the distance between the seconds of the record and the
    timestamp matters: shifting every second of the record and the
    timestamp by the same [d] gives the same outcome. *)
Theorem sample_shift self1 self2 video_id1 video_id2 rec (d : Z)
    timestamp st :
  video_features_of self1 video_id1 = inr rec →
  video_features_of self2 video_id2 = inr (kmap (λ sec : Z, (sec + d)%Z) rec) →
  window_size self1 = window_size self2 →
  max_num_sampled_feat self1 = max_num_sampled_feat self2 →
  lfb_channels self1 = lfb_channels self2 →
  sample_long_term_features self2 video_id2 (timestamp + d) st
  = sample_long_term_features self1 video_id1 timestamp st.
Proof.
  intros H1 H2 HW HK Hc.
  rewrite (sample_resolved self1 video_id1 timestamp rec st H1).
  rewrite (sample_resolved self2 video_id2 (timestamp + d) _ st H2).
  rewrite <- HW, <- HK, <- Hc. unfold sample_window.
  rewrite !enumerate_py_range.
  set (half := Z.of_nat (window_size self1 / 2)).
  apply for_each_fmap_ext. intros acc i st'. simpl.
  replace (timestamp + d - half + Z.of_nat i)%Z
    with ((timestamp - half + Z.of_nat i) + d)%Z by lia.
  by rewrite (lookup_kmap (λ sec : Z, (sec + d)%Z)).
Qed.

Lemma setitem_outcome lt (r : nat) (v : @Tensor1 V) :
  r < length (b_rows lt) →
  (fits (b_shape lt).2 v ∧
   ∃ row, setitem lt r v = inr (with_row lt r row)) ∨
  (¬ fits (b_shape lt).2 v ∧ setitem lt r v = inl RuntimeError).
Proof.
  intros Hr. unfold setitem, fits. rewrite decide_True by done.
  case_decide as Hlen; [left; split; [by left|by eexists]|].
  destruct (t_data v) as [|x [|y l]]; simpl in *.
  - right. split; [|done]. intros [?|?]; [done|lia].
  - left. split; [by right|by eexists].
  - right. split; [|done]. intros [?|?]; [done|lia].
Qed.

Lemma write_rows_outcome (K idx : nat) feats :
  ∀ (idxs : list nat) (k0 : nat) lt (st : RandomState),
    Forall (λ j, j < length feats) idxs →
    idx * K + k0 + length idxs ≤ length (b_rows lt) →
    ∃ r,
      for_each
        (λ lt_feats '(k, rand_idx),
           match feats !! rand_idx with
           | Some v => lift (setitem lt_feats (idx * K + k) v)
           | None => raise IndexError
           end)
        (imap (λ i x, (k0 + i, x)) idxs) lt st = (r, st) ∧
      match r with
      | inr lt' =>
          b_shape lt' = b_shape lt ∧
          length (b_rows lt') = length (b_rows lt) ∧
          Forall (λ j, ∃ v, feats !! j = Some v ∧ fits (b_shape lt).2 v) idxs
      | inl e =>
          e = RuntimeError ∧
          ∃ j v, j ∈ idxs ∧ feats !! j = Some v ∧ ¬ fits (b_shape lt).2 v
      end.
Proof.
  intros idxs. induction idxs as [|j idxs IH]; intros k0 lt st Hidx Hlen.
  { exists (inr lt). by repeat split. }
  apply Forall_cons in Hidx as [Hj Hidx]. simpl in Hlen.
  destruct (lookup_lt_is_Some_2 feats j Hj) as [v Hv].
  rewrite imap_cons. cbn [for_each]. unfold bind at 1.
  rewrite Hv. unfold lift at 1.
  rewrite (imap_ext _ (λ i x, (S k0 + i, x))) by (intros; simpl; f_equal; lia).
  destruct (setitem_outcome lt (idx * K + (k0 + 0)) v) as
    [[Hfit [row ->]] | [Hmis ->]]; [lia| |].
  - destruct (IH (S k0) (with_row lt (idx * K + (k0 + 0)) row) st Hidx)
      as (r & -> & Hr).
    { simpl. rewrite length_insert. lia. }
    exists r. split; [done|]. destruct r as [e|lt']; simpl in Hr.
    + destruct Hr as (-> & j' & v' & Hin & Hv' & Hmis).
      split; [done|]. exists j', v'. split; [by right|done].
    + rewrite length_insert in Hr. destruct Hr as (Hs & Hl & Hall).
      split; [done|]. split; [done|]. constructor; [by exists v|done].
  - exists (inl RuntimeError). split; [done|]. split; [done|].
    exists j, v. split; [left|done].
Qed.

Lemma sample_second_outcome (K idx : nat) feats lt st :
  idx * K + K ≤ length (b_rows lt) →
  ∃ (idxs : list nat) st',
    choice (length feats) (min (length feats) K) st = (inr idxs, st') ∧
    NoDup idxs ∧ length idxs = min (length feats) K ∧
    ((∃ lt', sample_second K idx feats lt st = (inr lt', st') ∧
             b_shape lt' = b_shape lt ∧
             length (b_rows lt') = length (b_rows lt) ∧
             Forall (λ j, ∃ v, feats !! j = Some v ∧ fits (b_shape lt).2 v)
                    idxs) ∨
     (sample_second K idx feats lt st = (inl RuntimeError, st') ∧
      ∃ j v, j ∈ idxs ∧ feats !! j = Some v ∧ ¬ fits (b_shape lt).2 v)).
Proof.
  intros Hlen. unfold sample_second, bind.
  destruct (choice_spec (length feats) (min (length feats) K) st)
    as (idxs & st' & Hdraw & Hn & Hnd & Hlt); [lia|].
  rewrite Hdraw. exists idxs, st'. split; [done|]. split; [done|].
  split; [done|].
  destruct (write_rows_outcome K idx feats idxs 0 lt st' Hlt) as (r & Hrun & Hr);
    [lia|].
  change (imap (λ i x : nat, (0 + i, x)) idxs)
    with (imap (λ i x : nat, (i, x)) idxs) in Hrun.
  unfold enumerate. rewrite Hrun. destruct r as [e|lt'].
  - right. destruct Hr as [-> Hmis]. done.
  - left. by exists lt'.
Qed.

(** X15. Index safety, for records of any shape: a query on a resolved record
    either returns a block of window_size * K rows, every drawn feature
    fitting a row, or raises torch's RuntimeError; it raises no IndexError
    and no ValueError, the row written and the feature read being in range
    at every step. *)
Theorem sample_long_term_features_safe self video_id timestamp rec st :
  video_features_of self video_id = inr rec →
  let W := window_size self in
  let K := max_num_sampled_feat self in
  let c := lfb_channels self in
  let start := (timestamp - Z.of_nat (W / 2))%Z in
  ∃ st',
    (∃ blk,
       sample_long_term_features self video_id timestamp st = (inr blk, st') ∧
       b_shape blk = (W * K, c) ∧ length (b_rows blk) = W * K ∧
       ∀ i, i < W → second_fits rec start K c i) ∨
    (sample_long_term_features self video_id timestamp st
     = (inl RuntimeError, st') ∧
     ∃ i feats v, i < W ∧ rec !! (start + Z.of_nat i)%Z = Some feats ∧
                  v ∈ feats ∧ ¬ fits c v).
Proof.
  intros Hres W K c start.
  rewrite (sample_resolved _ _ _ rec) by done. fold W K c.
  unfold sample_window. rewrite enumerate_py_range. fold start.
  assert (∀ n m lt st,
    m + n = W → b_shape lt = (W * K, c) → length (b_rows lt) = W * K →
    (∀ i, i < m → second_fits rec start K c i) →
    ∃ r st',
      for_each
        (λ lt_feats '(idx, sec),
           match rec !! sec with
           | Some feats => sample_second K idx feats lt_feats
           | None => ret lt_feats
           end)
        ((λ i : nat, (i, (start + Z.of_nat i)%Z)) <$> seq m n) lt st
      = (r, st') ∧
      match r with
      | inr blk =>
          b_shape blk = (W * K, c) ∧ length (b_rows blk) = W * K ∧
          ∀ i, i < W → second_fits rec start K c i
      | inl e =>
          e = RuntimeError ∧
          ∃ i feats v, i < W ∧ rec !! (start + Z.of_nat i)%Z = Some feats ∧
                       v ∈ feats ∧ ¬ fits c v
      end) as Hloop.
  { clear st. intros n. induction n as [|n IH]; intros m lt st HW Hs Hl Hdone.
    { exists (inr lt), st. repeat split; auto.
      intros i Hi. apply Hdone. lia. }
    cbn [seq fmap list_fmap for_each]. unfold bind at 1.
    assert (m * K + K ≤ W * K) as HmK.
    { replace (m * K + K) with (S m * K) by lia.
      apply Nat.mul_le_mono_r. lia. }
    destruct (rec !! (start + Z.of_nat m)%Z) as [feats|] eqn:Hsec.
    - destruct (sample_second_outcome K m feats lt st)
        as (idxs & st1 & Hdraw & Hnd & Hn &
            [(lt1 & -> & Hs1 & Hl1 & Hall) | (-> & j & v & Hin & Hv & Hmis)]);
        [lia| |].
      + apply (IH (S m) lt1 st1); [lia|congruence|congruence|].
        intros i Hi. destruct (decide (i = m)) as [->|]; [|apply Hdone; lia].
        unfold second_fits. rewrite Hsec. exists idxs.
        rewrite Hs in Hall. auto.
      + exists (inl RuntimeError), st1. split; [done|]. split; [done|].
        exists m, feats, v. rewrite Hs in Hmis.
        split; [lia|]. split; [done|]. split; [|done].
        by eapply list_elem_of_lookup_2.
    - unfold ret at 1. apply (IH (S m) lt st); [lia|done|done|].
      intros i Hi. destruct (decide (i = m)) as [->|]; [|apply Hdone; lia].
      unfold second_fits. by rewrite Hsec. }
  destruct (Hloop W 0 (torch_zeros (W * K) c) st) as (r & st' & Hrun & Hr);
    [lia|done| |intros; lia|].
  { unfold torch_zeros. simpl. apply length_replicate. }
  exists st'. rewrite Hrun. destruct r as [e|blk].
  - right. destruct Hr as [-> Hmis]. done.
  - left. by exists blk.
Qed.

Lemma all_indices_drawn (idxs : list nat) (n : nat) :
  NoDup idxs → length idxs = n → Forall (λ j, j < n) idxs → idxs ≡ₚ seq 0 n.
Proof.
  intros Hnd Hlen Hlt. apply submseteq_length_Permutation.
  - apply NoDup_submseteq; [done|]. intros j Hj. apply elem_of_seq.
    pose proof (proj1 (Forall_forall _ _) Hlt j Hj). simpl in *. lia.
  - rewrite length_seq. lia.
Qed.

(** X16. No validation of the feature length: when a second of the window holds
    at most K features (so all of them are drawn) and one of them has
    neither [lfb_channels] entries nor a single entry, the query raises
    RuntimeError and returns no block. *)
Theorem misfit_feature_raises self video_id timestamp rec st i feats v :
  video_features_of self video_id = inr rec →
  i < window_size self →
  rec !! (timestamp - Z.of_nat (window_size self / 2) + Z.of_nat i)%Z
  = Some feats →
  length feats ≤ max_num_sampled_feat self →
  v ∈ feats → ¬ fits (lfb_channels self) v →
  ∃ st',
    sample_long_term_features self video_id timestamp st
    = (inl RuntimeError, st').
Proof.
  intros Hres Hi Hsec Hfew Hv Hmis.
  destruct (sample_long_term_features_safe self video_id timestamp rec st Hres)
    as (st' & [(blk & _ & _ & _ & Hfits) | [Hrun _]]); [|by exists st'].
  exfalso. specialize (Hfits i Hi). unfold second_fits in Hfits.
  rewrite Hsec in Hfits. destruct Hfits as (idxs & Hnd & Hn & Hall).
  apply list_elem_of_lookup_1 in Hv as [j0 Hj0].
  assert (j0 ∈ idxs) as Hin.
  { rewrite (all_indices_drawn idxs (length feats)); [| done | lia |].
    - apply elem_of_seq. apply lookup_lt_Some in Hj0. lia.
    - eapply Forall_impl; [exact Hall|]. intros j (v' & Hv' & _).
      by eapply lookup_lt_Some. }
  destruct (proj1 (Forall_forall _ _) Hall j0 Hin) as (v' & Hv' & Hfit).
  rewrite Hj0 in Hv'. by simplify_eq.
Qed.

Lemma segment_drawn rec (W K c : nat) (start : Z) (blk : @Tensor2 V) i feats :
  length (b_rows blk) = W * K → i < W →
  second_sampled rec start K c (b_rows blk) i →
  rec !! (start + Z.of_nat i)%Z = Some feats →
  ∃ idxs : list nat,
    NoDup idxs ∧ length idxs = min (length feats) K ∧
    Forall (λ j, j < length feats) idxs ∧
    segment K i blk
    = ((λ j, default [] (row_of <$> feats !! j)) <$> idxs)
      ++ replicate (K - min (length feats) K) (zero_row c).
Proof.
  intros Hlen Hi Hseg Hsec. unfold second_sampled in Hseg.
  rewrite Hsec in Hseg. destruct Hseg as (idxs & _ & Hn & Hnd & Hin & Hz).
  exists idxs. split; [done|]. split; [done|]. split.
  { apply Forall_lookup. intros k j Hk.
    destruct (Hin k j Hk) as (v & Hv & _). by eapply lookup_lt_Some. }
  assert (i * K + K ≤ length (b_rows blk)) as HiK.
  { rewrite Hlen. replace (i * K + K) with (S i * K) by lia.
    apply Nat.mul_le_mono_r. lia. }
  apply list_eq. intros k.
  destruct (decide (k < length idxs)) as [Hk|Hk].
  - rewrite segment_lookup by lia.
    rewrite lookup_app_l by (by rewrite length_fmap).
    rewrite list_lookup_fmap.
    destruct (lookup_lt_is_Some_2 idxs k Hk) as [j Hj].
    destruct (Hin k j Hj) as (v & Hv & ->). rewrite Hj. simpl.
    by rewrite Hv.
  - destruct (decide (k < K)) as [HkK|HkK].
    + rewrite segment_lookup, Hz by lia.
      rewrite lookup_app_r by (rewrite length_fmap; lia).
      rewrite lookup_replicate_2; [done|]. rewrite length_fmap. lia.
    + rewrite !lookup_ge_None_2; [done| |].
      * rewrite length_app, length_fmap, length_replicate. lia.
      * rewrite segment_length by done. lia.
Qed.

Lemma rows_of_all_indices feats :
  (λ j, default [] (row_of <$> feats !! j)) <$> seq 0 (length feats)
  = row_of <$> feats.
Proof.
  apply list_eq. intros k. rewrite !list_lookup_fmap.
  destruct (decide (k < length feats)) as [Hk|Hk].
  - rewrite lookup_seq_lt by done. simpl.
    destruct (lookup_lt_is_Some_2 feats k Hk) as [v ->]. done.
  - rewrite lookup_seq_ge by lia. by rewrite lookup_ge_None_2 by lia.
Qed.

(** X17. Each stored feature is used at most once and only for its own second:
    the segment of a second with f features is min(f, K) rows followed by
    zero rows, and these rows form a sub-multiset of the (float32 copies of
    the) features stored at that second. *)
Theorem segment_rows_from_second self video_id timestamp rec st :
  video_features_of self video_id = inr rec →
  record_channels (lfb_channels self) rec →
  let W := window_size self in
  let K := max_num_sampled_feat self in
  let start := (timestamp - Z.of_nat (W / 2))%Z in
  ∃ blk st',
    sample_long_term_features self video_id timestamp st = (inr blk, st') ∧
    ∀ i feats, i < W → rec !! (start + Z.of_nat i)%Z = Some feats →
      ∃ drawn,
        segment K i blk
        = drawn ++ replicate (K - min (length feats) K)
                             (zero_row (lfb_channels self)) ∧
        length drawn = min (length feats) K ∧
        drawn ⊆+ (row_of <$> feats).
Proof.
  intros Hres Hrec W K start.
  destruct (sample_window_spec rec W K (lfb_channels self) timestamp st Hrec)
    as (blk & st' & Hrun & _ & _ & (_ & Hlen & _) & Hseg).
  exists blk, st'. rewrite (sample_resolved _ _ _ rec) by done.
  split; [exact Hrun|]. intros i feats Hi Hsec.
  destruct (segment_drawn rec W K _ start blk i feats Hlen Hi (Hseg i Hi) Hsec)
    as (idxs & Hnd & Hn & Hlt & Heq).
  eexists. split; [exact Heq|]. split; [by rewrite length_fmap|].
  rewrite <- rows_of_all_indices. apply fmap_submseteq.
  apply NoDup_submseteq; [done|]. intros j Hj. apply elem_of_seq.
  pose proof (proj1 (Forall_forall _ _) Hlt j Hj). simpl in *. lia.
Qed.

(** X18. Nothing is dropped from a second that holds at most K features: its
    segment holds every feature of the second exactly once, in drawn
    order, then zero rows. *)
Theorem segment_keeps_all_when_few self video_id timestamp rec st :
  video_features_of self video_id = inr rec →
  record_channels (lfb_channels self) rec →
  let W := window_size self in
  let K := max_num_sampled_feat self in
  let start := (timestamp - Z.of_nat (W / 2))%Z in
  ∃ blk st',
    sample_long_term_features self video_id timestamp st = (inr blk, st') ∧
    ∀ i feats, i < W → rec !! (start + Z.of_nat i)%Z = Some feats →
      length feats ≤ K →
      take (length feats) (segment K i blk) ≡ₚ row_of <$> feats ∧
      drop (length feats) (segment K i blk)
      = replicate (K - length feats) (zero_row (lfb_channels self)).
Proof.
  intros Hres Hrec W K start.
  destruct (sample_window_spec rec W K (lfb_channels self) timestamp st Hrec)
    as (blk & st' & Hrun & _ & _ & (_ & Hlen & _) & Hseg).
  exists blk, st'. rewrite (sample_resolved _ _ _ rec) by done.
  split; [exact Hrun|]. intros i feats Hi Hsec Hfew.
  destruct (segment_drawn rec W K _ start blk i feats Hlen Hi (Hseg i Hi) Hsec)
    as (idxs & Hnd & Hn & Hlt & Heq).
  rewrite Nat.min_l in Hn, Heq by done. rewrite Heq.
  assert (length ((λ j, default [] (row_of <$> feats !! j)) <$> idxs)
          = length feats) as Hl by (by rewrite length_fmap).
  split.
  - rewrite take_app_length' by done.
    rewrite (all_indices_drawn idxs (length feats)) by done.
    by rewrite rows_of_all_indices.
  - by rewrite drop_app_length' by done.
Qed.

End MoreSampler.

(* ===================================================================== *)
(** ** Further properties: keys *)
(* ===================================================================== *)

Lemma digit_of_pretty_N_char (n : N) :
  (n < 10)%N → digit_of (pretty_N_char n) = Some (Z.of_N n).
Proof.
  intros Hn.
  assert (n = 0 ∨ n = 1 ∨ n = 2 ∨ n = 3 ∨ n = 4 ∨ n = 5 ∨ n = 6 ∨ n = 7
          ∨ n = 8 ∨ n = 9)%N as Hcases by lia.
  repeat (destruct Hcases as [->|Hcases]; [reflexivity|]). by subst.
Qed.

Lemma digit_is_plain c d :
  digit_of c = Some d →
  is_space c = false ∧ Ascii.eqb c "+" = false ∧ Ascii.eqb c "-" = false.
Proof.
  intros Hd. split; [|split].
  - unfold digit_of in Hd. unfold is_space.
    destruct ((48 <=? nat_of_ascii c) && (nat_of_ascii c <=? 57)) eqn:Hr;
      [|done].
    apply andb_true_iff in Hr as [H1%Nat.leb_le H2%Nat.leb_le].
    repeat (apply orb_false_iff; split);
      [apply andb_false_iff; right; apply Nat.leb_gt; lia
      | apply Nat.eqb_neq; lia ..].
  - destruct (Ascii.eqb_spec c "+") as [->|]; [by vm_compute in Hd|done].
  - destruct (Ascii.eqb_spec c "-") as [->|]; [by vm_compute in Hd|done].
Qed.

(** Parsing the digits [pretty_N_go] puts before [s] shifts the
    accumulator by a power of ten and adds the number. *)
Lemma int_digits_pretty_N_go (x : N) :
  ∀ s, ∃ p : Z, ∀ acc,
    int_digits acc false (pretty_N_go x s)
    = int_digits (acc * p + Z.of_N x)%Z false s.
Proof.
  induction (N.lt_wf_0 x) as [x _ IH]. intros s.
  destruct (decide (x = 0)%N) as [->|Hx].
  { exists 1%Z. intros acc. rewrite pretty_N_go_0. f_equal. lia. }
  rewrite pretty_N_go_step by lia.
  destruct (IH (x `div` 10)%N) with
    (s := String (pretty_N_char (x `mod` 10)) s) as [p Hp].
  { apply N.div_lt; lia. }
  exists (10 * p)%Z. intros acc. rewrite Hp. cbn [int_digits].
  rewrite digit_of_pretty_N_char by (apply N.mod_lt; lia).
  f_equal. pose proof (N.div_mod x 10 ltac:(lia)) as Hdm.
  replace (acc * (10 * p))%Z with (10 * (acc * p))%Z by ring.
  generalize dependent (acc * p)%Z.
  generalize dependent (x `div` 10)%N. generalize dependent (x `mod` 10)%N.
  intros. lia.
Qed.

Lemma pretty_N_go_head (x : N) :
  ∀ s, (0 < x)%N →
    ∃ c r d, pretty_N_go x s = String c r ∧ digit_of c = Some d.
Proof.
  induction (N.lt_wf_0 x) as [x _ IH]. intros s Hx.
  rewrite pretty_N_go_step by done.
  destruct (decide (x `div` 10 = 0)%N) as [->|Hq].
  - rewrite pretty_N_go_0. eexists _, _, _. split; [done|].
    apply digit_of_pretty_N_char, N.mod_lt. lia.
  - apply IH; [apply N.div_lt; lia | by apply N.neq_0_lt_0].
Qed.

Lemma int_unsigned_pretty_N (x : N) :
  (0 < x)%N →
  ∃ c r d, pretty_N_go x "" = String c r ∧ digit_of c = Some d ∧
           int_unsigned (String c r) = Some (Z.of_N x).
Proof.
  intros Hx. destruct (pretty_N_go_head x "" Hx) as (c & r & d & Heq & Hd).
  exists c, r, d. split; [done|]. split; [done|].
  destruct (int_digits_pretty_N_go x "") as [p Hp].
  specialize (Hp 0%Z). rewrite Heq in Hp. cbn [int_digits] in Hp.
  rewrite Hd in Hp. cbn [int_unsigned]. rewrite Hd.
  replace (10 * 0 + d)%Z with d in Hp by lia. rewrite Hp. reflexivity.
Qed.

(** [int(str(z)) = z]. *)
Lemma py_int_py_str (z : Z) : py_int (py_str z) = Some z.
Proof.
  unfold py_str, pretty, pretty_Z. destruct z as [|x|x]; [done| |].
  - unfold pretty, pretty_positive, pretty, pretty_N.
    rewrite decide_False by done.
    destruct (int_unsigned_pretty_N (N.pos x)) as (c & r & d & -> & Hd & Hval);
      [lia|].
    destruct (digit_is_plain c d Hd) as (Hsp & Hplus & Hminus).
    unfold py_int. cbn [lstrip]. by rewrite Hsp, Hplus, Hminus, Hval.
  - unfold pretty, pretty_positive, pretty, pretty_N.
    rewrite decide_False by done.
    destruct (int_unsigned_pretty_N (N.pos x)) as (c & r & d & -> & Hd & Hval);
      [lia|].
    unfold py_int.
    change ("-" +:+ String c r) with (String "-" (String c r)).
    cbn [lstrip]. change (is_space "-") with false. cbv iota.
    change (Ascii.eqb "-" "+") with false.
    change (Ascii.eqb "-" "-") with true. cbv iota.
    by rewrite Hval.
Qed.

Lemma py_str_no_comma (z : Z) : count_char "," (py_str z) = 0.
Proof. eapply py_int_no_comma, py_int_py_str. Qed.

Section MoreAccessor.
Context {V : Type} `{!Scalar V}.

(** X19. Every integer timestamp, negative ones included, is reached through
    the combined key: indexing with the id (holding no comma), a comma and
    the decimal form of the timestamp is the sampler at that id and
    timestamp. *)
Theorem getitem_formatted_key (self : @LFB V) video_id (timestamp : Z)
    (st : RandomState) :
  count_char "," video_id = 0 →
  getitem self (video_id +:+ "," +:+ py_str timestamp) st
  = sample_long_term_features self video_id timestamp st.
Proof.
  intros Hid. unfold getitem.
  change ("," +:+ py_str timestamp) with (String "," (py_str timestamp)).
  rewrite str_split_join, str_split_no_sep by auto using py_str_no_comma.
  by rewrite py_int_py_str.
Qed.

End MoreAccessor.

(* ===================================================================== *)
(** ** The further properties at the concrete banks *)
(* ===================================================================== *)

Section MoreWitnesses.
Import Scenario Scenario2.

Lemma construct_cpu_eq :
  init env0 "/data" 2 4 3 (ModesTuple ["train"; "val"]) "cpu" true
  = (inr (built "cpu"), (construct "cpu").2).
Proof. vm_compute. reflexivity. Defined.

Lemma construct_gpu_eq :
  init env0 "/data" 2 4 3 (ModesTuple ["train"; "val"]) "gpu" true
  = (inr (built "gpu"), (construct "gpu").2).
Proof. vm_compute. reflexivity. Defined.

Lemma construct_lmdb_eq :
  init env0 "/data" 2 4 3 (ModesTuple ["train"; "val"]) "lmdb" true
  = (inr (built "lmdb"), (construct "lmdb").2).
Proof. vm_compute. reflexivity. Defined.

Lemma undefined_in_env0 (video_id : string) :
  bank_train !! video_id = None → bank_val !! video_id = None →
  ∀ m raw, m ∈ as_tuple (ModesTuple ["train"; "val"]) →
    fs_pkl env0 !! lfb_path "/data" m = Some raw → raw !! video_id = None.
Proof.
  intros Ht Hv m raw Hin Hraw. simpl in Hin.
  apply elem_of_cons in Hin as [-> | Hin].
  { assert (fs_pkl env0 !! lfb_path "/data" "train" = Some bank_train) as Heq
      by reflexivity.
    rewrite Heq in Hraw. by injection Hraw as <-. }
  apply elem_of_cons in Hin as [-> | Hin]; [|by apply elem_of_nil in Hin].
  assert (fs_pkl env0 !! lfb_path "/data" "val" = Some bank_val) as Heq
    by reflexivity.
  rewrite Heq in Hraw. by injection Hraw as <-.
Defined.

Lemma load_lfb_app_witness :
  load_lfb env0 "/data" (["train"] ++ ["val"]) cpu
  = inr (dict_update bank_train bank_val).
Proof.
  apply (load_lfb_app env0 "/data" ["train"] ["val"] cpu bank_train bank_val);
    vm_compute; reflexivity.
Defined.

Lemma load_lfb_disjoint_comm_witness :
  load_lfb env_three "/data" (["val"] ++ ["test"]) cpu
  = load_lfb env_three "/data" (["test"] ++ ["val"]) cpu.
Proof.
  apply (load_lfb_disjoint_comm env_three "/data" ["val"] ["test"] cpu
           bank_val bank_test); [vm_compute; reflexivity ..|].
  intros video_id [rec Hrec]. unfold bank_val in Hrec.
  apply lookup_singleton_Some in Hrec as [<- _]. reflexivity.
Defined.


Lemma init_bank_device_witness :
  ∃ bank, lfb (built "gpu") = Some bank ∧ bank_on (cuda 0) bank.
Proof.
  exact (init_bank_device env0 "/data" 2 4 3 (ModesTuple ["train"; "val"])
           "gpu" true (built "gpu") (construct "gpu").2
           ltac:(left; reflexivity) construct_gpu_eq).
Defined.

Lemma len_in_memory_witness :
  ∃ bank, lfb (built "cpu") = Some bank ∧
          len (built "cpu") = inr (size (dom bank)).
Proof.
  destruct (len_in_memory env0 "/data" 2 4 3 (ModesTuple ["train"; "val"])
              "cpu" true (built "cpu") (construct "cpu").2
              ltac:(right; reflexivity) construct_cpu_eq)
    as (bank & Hbank & Hlen & _).
  exists bank. split; [exact Hbank | exact Hlen].
Defined.

Lemma len_lmdb_witness : len (built "lmdb") = inl AttributeError.
Proof.
  exact (len_lmdb env0 "/data" 2 4 3 (ModesTuple ["train"; "val"]) true
           (built "lmdb") (construct "lmdb").2 construct_lmdb_eq).
Defined.

Lemma load_lfb_on_lmdb_store_witness :
  ∃ written,
    fs_lmdb (construct "lmdb").2 !! "/data/lmdb" = Some written ∧
    torch_load_buffer (written !! encode "vid42") = inr rec_vid42.
Proof.
  assert (load_lfb_on_lmdb env0 "/data" ["train"; "val"] "/data/lmdb"
          = inr (construct "lmdb").2) as Hbuilt by (vm_compute; reflexivity).
  destruct (load_lfb_on_lmdb_store env0 "/data" ["train"; "val"] "/data/lmdb"
              (construct "lmdb").2 Hbuilt)
    as (bank & written & Hload & Hstore & Hget & _).
  exists written. split; [exact Hstore|]. apply Hget.
  assert (load_lfb env0 "/data" ["train"; "val"] cpu
          = inr (lfb_bank (built "cpu"))) as Hcpu by (vm_compute; reflexivity).
  rewrite Hcpu in Hload. injection Hload as <-. vm_compute. reflexivity.
Defined.

Lemma construct_lmdb_found :
  init (construct "lmdb").2 "/data" 2 4 3 (ModesTuple ["train"; "val"])
       "lmdb" false
  = (inr (built "lmdb"), (construct "lmdb").2).
Proof. vm_compute. reflexivity. Defined.

Lemma init_lmdb_reuse_witness :
  init env0 "/data" 2 4 3 (ModesTuple ["train"; "val"]) "lmdb" true
  = (inr (built "lmdb"), (construct "lmdb").2) ∧
  init (construct "lmdb").2 "/data" 2 4 3 (ModesTuple ["train"; "val"])
       "lmdb" false
  = (inr (built "lmdb"), (construct "lmdb").2) ∧
  built "lmdb" = built "lmdb" ∧ (construct "lmdb").2 = (construct "lmdb").2.
Proof.
  split; [exact construct_lmdb_eq|]. split; [exact construct_lmdb_found|].
  exact (init_lmdb_reuse env0 "/data" 2 4 3 (ModesTuple ["train"; "val"])
           (built "lmdb") (construct "lmdb").2 eq_refl construct_lmdb_eq
           false (built "lmdb") (construct "lmdb").2 construct_lmdb_found).
Defined.

Lemma absent_id_in_memory_witness :
  sample_long_term_features (built "cpu") "nope" 11 rng0
  = (inl KeyError, rng0).
Proof.
  exact (absent_id_in_memory env0 "/data" 2 4 3 (ModesTuple ["train"; "val"])
           "cpu" true (built "cpu") (construct "cpu").2 "nope" 11 rng0
           ltac:(right; reflexivity) construct_cpu_eq
           (undefined_in_env0 "nope" eq_refl eq_refl)).
Defined.

Lemma absent_id_lmdb_fresh_witness :
  sample_long_term_features (built "lmdb") "nope" 11 rng0
  = (inl EOFError, rng0).
Proof.
  exact (absent_id_lmdb_fresh env0 "/data" 2 4 3 (ModesTuple ["train"; "val"])
           (built "lmdb") (construct "lmdb").2 "nope" 11 rng0
           eq_refl eq_refl construct_lmdb_eq
           (undefined_in_env0 "nope" eq_refl eq_refl)
           ltac:(vm_compute; lia)).
Defined.

Lemma stale_record_served_witness :
  sample_long_term_features built_stale "gone" 3 rng0
  = sample_window rec_train_x 4 2 3 3 rng0.
Proof.
  apply (stale_record_served env_stale "/data" 2 4 3
           (ModesTuple ["train"; "val"]) built_stale
           (init env_stale "/data" 2 4 3 (ModesTuple ["train"; "val"])
                 "lmdb" true).2
           {[ "gone" := Pickle rec_train_x ]} "gone" rec_train_x 3 rng0);
    [reflexivity | reflexivity | reflexivity | vm_compute; reflexivity |].
  exact (undefined_in_env0 "gone" eq_refl eq_refl).
Defined.

Lemma init_lmdb_no_construct_witness :
  init env0 "/data" 2 4 3 (ModesTuple ["train"; "val"]) "lmdb" false
  = (inl LmdbError, env0).
Proof.
  apply (init_lmdb_no_construct env0 "/data" 2 4 3
           (ModesTuple ["train"; "val"]) false);
    [apply (bool_decide_unpack _); vm_compute; exact I | reflexivity
    | right; reflexivity].
Defined.


Lemma rec_vid42_far_agrees sec :
  (11 - Z.of_nat (window_size (built "cpu") / 2) ≤ sec
   < 11 - Z.of_nat (window_size (built "cpu") / 2)
     + Z.of_nat (window_size (built "cpu")))%Z →
  rec_vid42 !! sec = rec_vid42_far !! sec.
Proof.
  intros Hsec. change (9 ≤ sec < 13)%Z in Hsec.
  assert (sec = 9%Z ∨ sec = 10%Z ∨ sec = 11%Z ∨ sec = 12%Z) as Hcases.
  { lia. }
  destruct Hcases as [-> | [-> | [-> | ->]]]; reflexivity.
Defined.

Lemma sample_window_local_witness :
  sample_long_term_features (built "cpu") "vid42" 11 rng0
  = sample_long_term_features store_far "far" 11 rng0.
Proof.
  apply (sample_window_local (built "cpu") store_far "vid42" "far"
           rec_vid42 rec_vid42_far 11 rng0);
    [vm_compute; reflexivity | vm_compute; reflexivity
    | reflexivity | reflexivity | reflexivity | exact rec_vid42_far_agrees].
Defined.

Lemma sample_shift_witness :
  sample_long_term_features store_shifted "late" (11 + 5) rng0
  = sample_long_term_features (built "cpu") "vid42" 11 rng0.
Proof.
  apply (sample_shift (built "cpu") store_shifted "vid42" "late" rec_vid42 5
           11 rng0);
    [vm_compute; reflexivity | reflexivity | reflexivity ..].
Defined.

Lemma sample_long_term_features_safe_witness :
  ∃ st',
    sample_long_term_features store_misfit "m" 10 rng0
    = (inl RuntimeError, st') ∨
    ∃ blk, sample_long_term_features store_misfit "m" 10 rng0 = (inr blk, st').
Proof.
  destruct (sample_long_term_features_safe store_misfit "m" 10 rec_misfit rng0
              eq_refl) as (st' & [(blk & Hrun & _) | [Hrun _]]).
  - exists st'. right. exists blk. exact Hrun.
  - exists st'. left. exact Hrun.
Defined.

Lemma misfit_feature_raises_witness :
  ∃ st',
    sample_long_term_features store_misfit "m" 10 rng0
    = (inl RuntimeError, st').
Proof.
  apply (misfit_feature_raises store_misfit "m" 10 rec_misfit rng0 0
           [vec [1; 2]%Z] (vec [1; 2]%Z));
    [reflexivity | simpl; lia | reflexivity | simpl; lia | left |].
  intros [Hfit | Hfit]; simpl in Hfit; lia.
Defined.

Lemma segment_rows_from_second_witness :
  ∃ blk st',
    sample_long_term_features (built "cpu") "vid42" 11 rng0 = (inr blk, st') ∧
    ∃ drawn, segment 2 2 blk = drawn ++ [[0; 0; 0]%Z] ∧
             drawn ⊆+ [[9; 9; 9]%Z].
Proof.
  destruct (segment_rows_from_second (built "cpu") "vid42" 11 rec_vid42 rng0
              rec_vid42_resolved rec_vid42_channels)
    as (blk & st' & Hrun & Hseg).
  exists blk, st'. split; [exact Hrun|].
  destruct (Hseg 2 [vec [9; 9; 9]%Z] ltac:(vm_compute; lia) eq_refl)
    as (drawn & Heq & _ & Hsub).
  exists drawn. split; [exact Heq | exact Hsub].
Defined.

Lemma segment_keeps_all_when_few_witness :
  ∃ blk st',
    sample_long_term_features (built "cpu") "vid42" 11 rng0 = (inr blk, st') ∧
    take 2 (segment 2 1 blk) ≡ₚ [[1; 1; 1]; [2; 2; 2]]%Z.
Proof.
  destruct (segment_keeps_all_when_few (built "cpu") "vid42" 11 rec_vid42 rng0
              rec_vid42_resolved rec_vid42_channels)
    as (blk & st' & Hrun & Hseg).
  exists blk, st'. split; [exact Hrun|].
  exact (proj1 (Hseg 1 [vec [1; 1; 1]; vec [2; 2; 2]]%Z
                  ltac:(vm_compute; lia) eq_refl ltac:(vm_compute; lia))).
Defined.

Lemma getitem_formatted_key_witness :
  getitem (built "cpu") ("vid42" +:+ "," +:+ py_str (-3)) rng0
  = sample_long_term_features (built "cpu") "vid42" (-3) rng0.
Proof.
  exact (getitem_formatted_key (built "cpu") "vid42" (-3) rng0 eq_refl).
Defined.

End MoreWitnesses.
